(** * Override resolution for ufuncs: [PyUFunc_CheckOverride]

    A shallow embedding of [numpy/core/src/private/ufunc_override.h] and the
    properties of its dispatch protocol.

    The C function receives its collaborators from the host runtime
    (CPython and the numpy headers).  They are gathered in the class
    [Host]: the development is parametric in what the host answers, so a
    theorem holds for every host.  Pointers that the code lets be [NULL] are
    values of [option PyObject], with [None] for [NULL].

    Dictionaries live in a heap indexed by locations, because the function
    receives the caller's [kwds] by reference and writes into a dictionary
    ([PyDict_SetItemString]): which dictionary it writes into is part of what
    is verified.  Tuples are immutable in the host and the function only
    reads [args]; they are plain lists.

    The host of the model has an answer to an instance test on [NULL];
    CPython dereferences the pointer there.  What is stated of the exit of a
    run that applies the test to a cleared slot is therefore stated under a
    hypothesis on that answer, or for the runs that read no cleared slot;
    the order of the calls and what is never done do not depend on it.

    A call of an override is an answer of the host to the callable, its
    arguments and its keywords; the calls made are recorded, in order.  The
    model does not let a callee write into the dictionaries of the heap.

    Memory exhaustion inside the host's constructors ([PyTuple_GetSlice],
    [PyDict_Copy], [PyDict_New], [PyUString_FromString], [Py_BuildValue]) is
    outside the model: these return their object. *)

From stdpp Require Import gmap strings list fin_maps.

(** ** Host objects *)

(** What a host call hands back: an object, or [NULL] with the error
    indicator set to an exception object. *)
Inductive PyRet (PyObject : Type) : Type :=
  | PyNULL (exc : PyObject)
  | PyOk (o : PyObject).
Arguments PyNULL {PyObject} exc.
Arguments PyOk {PyObject} o.

(** A value stored in a keyword dictionary: an object of the caller, or a
    tuple built by the dispatcher from some of the operands. *)
Inductive PyValue (PyObject : Type) : Type :=
  | VObj (o : PyObject)
  | VTuple (items : list PyObject).
Arguments VObj {PyObject} o.
Arguments VTuple {PyObject} items.

(** The argument tuple built by [Py_BuildValue("OOiO", ufunc, method_name,
    override_pos, normal_args)]. *)
Record OverrideArgs (PyObject : Type) : Type := BuildValue {
  oa_ufunc : PyObject;
  oa_method : string;
  oa_pos : Z;
  oa_args : list PyObject
}.
Arguments BuildValue {PyObject} oa_ufunc oa_method oa_pos oa_args.
Arguments oa_ufunc {PyObject} o.
Arguments oa_method {PyObject} o.
Arguments oa_pos {PyObject} o.
Arguments oa_args {PyObject} o.

(** The primitives of the host runtime that the function consumes, and the
    constant [NPY_MAXARGS] of the numpy headers.  [PyObject_Type] and
    [PyObject_IsInstance] take pointers that may be [NULL];
    [PyObject_IsInstance] returns a C [int] (1 yes, 0 no, -1 error). *)
Class Host (PyObject : Type) := {
  PyObject_eq_dec :: EqDecision PyObject;
  NPY_MAXARGS : Z;
  Py_NotImplemented : PyObject;
  PyArray_CheckExact : PyObject → bool;
  PyArray_IsAnyScalar : PyObject → bool;
  PyObject_HasAttrString : PyObject → string → bool;
  PyObject_GetAttrString : PyObject → string → PyRet PyObject;
  PyObject_Type : option PyObject → option PyObject;
  PyObject_IsInstance : option PyObject → option PyObject → Z;
  PyObject_Call :
    PyObject → OverrideArgs PyObject → gmap string (PyValue PyObject) →
    PyRet PyObject
}.

(** ** The dictionary heap *)

Definition loc := positive.

Section Heap.
Context {PyObject : Type}.

(** Modelled from the spec: the host's dictionary constructors, which are
    not under src/ (the keyword part of the normalized call is a copy of
    the original keyword mapping augmented with an out entry).  [PyDict_New] and [PyDict_Copy]
    allocate a dictionary at a location that is not in use;
    [PyDict_SetItemString] stores into the dictionary it is given,
    replacing an entry with the same key. *)
Definition PyDict_New (h : gmap loc (gmap string (PyValue PyObject)))
  : loc * gmap loc (gmap string (PyValue PyObject)) :=
  let l := fresh (dom h) in (l, <[l := ∅]> h).

Definition PyDict_Copy (o : loc) (h : gmap loc (gmap string (PyValue PyObject)))
  : loc * gmap loc (gmap string (PyValue PyObject)) :=
  let l := fresh (dom h) in (l, <[l := default ∅ (h !! o)]> h).

Definition PyDict_SetItemString (d : loc) (key : string) (v : PyValue PyObject)
    (h : gmap loc (gmap string (PyValue PyObject)))
  : gmap loc (gmap string (PyValue PyObject)) :=
  alter (λ m, <[key := v]> m) d h.

(** Dropping the reference to a dictionary that the function built
    ([Py_XDECREF(normal_kwds)] at both exits): the dictionary is gone. *)
Definition Py_XDECREF (d : loc) (h : gmap loc (gmap string (PyValue PyObject)))
  : gmap loc (gmap string (PyValue PyObject)) :=
  delete d h.

(** Modelled from the spec: the host's tuple slice, which is not under
    src/ (the first [nin] elements; the slice of [args] from [nin] on).  Out of
    range bounds are clamped, as the host does. *)
Definition PyTuple_GetSlice (items : list PyObject) (low high : Z)
  : list PyObject :=
  let low := Z.max 0 low in
  let high := Z.min (Z.of_nat (length items)) high in
  let high := Z.max low high in
  take (Z.to_nat (high - low)) (drop (Z.to_nat low) items).
End Heap.

(** ** Arguments and results of the function *)

(** [args]: a tuple, or some other object. *)
Inductive ArgsObject (PyObject : Type) : Type :=
  | ArgsTuple (items : list PyObject)
  | ArgsOther (o : PyObject).
Arguments ArgsTuple {PyObject} items.
Arguments ArgsOther {PyObject} o.

(** [kwds]: [NULL], an exact dictionary (by reference), or another object. *)
Inductive KwdsObject (PyObject : Type) : Type :=
  | KwNULL
  | KwDict (d : loc)
  | KwOther (o : PyObject).
Arguments KwNULL {PyObject}.
Arguments KwDict {PyObject} d.
Arguments KwOther {PyObject} o.

(** The error indicator on the [fail] path. *)
Inductive PyErr (PyObject : Type) : Type :=
  | ValueError (msg : string)
  | TypeError (msg : string)
  | Raised (exc : PyObject).
Arguments ValueError {PyObject} msg.
Arguments TypeError {PyObject} msg.
Arguments Raised {PyObject} exc.

(** How the function leaves: [return 0] or [return 1] (label [fail]), with
    the content of [*result] at that moment. *)
Inductive Exit (PyObject : Type) : Type :=
  | Return0 (result : option PyObject)
  | Return1 (result : option PyObject) (err : PyErr PyObject).
Arguments Return0 {PyObject} result.
Arguments Return1 {PyObject} result err.

(** One call [PyObject_Call(numpy_ufunc, override_args, normal_kwds)];
    [ev_obj] is the operand [override_obj] the callable was taken from. *)
Record CallEvent (PyObject : Type) : Type := Called {
  ev_obj : PyObject;
  ev_callable : PyObject;
  ev_args : OverrideArgs PyObject;
  ev_kwds : gmap string (PyValue PyObject)
}.
Arguments Called {PyObject} ev_obj ev_callable ev_args ev_kwds.
Arguments ev_obj {PyObject} c.
Arguments ev_callable {PyObject} c.
Arguments ev_args {PyObject} c.
Arguments ev_kwds {PyObject} c.

Record Outcome (PyObject : Type) : Type := Done {
  out_exit : Exit PyObject;
  out_calls : list (CallEvent PyObject);
  out_heap : gmap loc (gmap string (PyValue PyObject))
}.
Arguments Done {PyObject} out_exit out_calls out_heap.
Arguments out_exit {PyObject} o.
Arguments out_calls {PyObject} o.
Arguments out_heap {PyObject} o.

(** The three outcomes of the specification, read off the return code and
    [*result] as the header comment of the function says. *)
Inductive DispatchOutcome (PyObject : Type) : Type :=
  | NoOverride
  | Result (v : PyObject)
  | Failure (e : PyErr PyObject).
Arguments NoOverride {PyObject}.
Arguments Result {PyObject} v.
Arguments Failure {PyObject} e.

Definition outcome {PyObject : Type} (x : Exit PyObject)
  : DispatchOutcome PyObject :=
  match x with
  | Return0 None => NoOverride
  | Return0 (Some v) => Result v
  | Return1 _ e => Failure e
  end.

(** ** The function *)

Section CheckOverride.
Context {PyObject : Type} {host : Host PyObject}.

Definition non_tuple_msg : string :=
  "Internal Numpy error: call to PyUFunc_CheckOverride with non-tuple".
Definition too_many_msg : string :=
  "Internal Numpy error: too many arguments in call to PyUFunc_CheckOverride".
Definition not_implemented_msg : string :=
  "__numpy_ufunc__ not implemented for this type.".

(** The names of the specification for the errors raised here. *)
Definition InvalidUsage (e : PyErr PyObject) : Prop :=
  e = ValueError non_tuple_msg ∨ e = ValueError too_many_msg.
Definition AllDeclined : PyErr PyObject := TypeError not_implemented_msg.

(** Lines 63-66: what makes an operand a candidate. *)
Definition has_override (obj : PyObject) : bool :=
  negb (PyArray_CheckExact obj || PyArray_IsAnyScalar obj)
  && PyObject_HasAttrString obj "__numpy_ufunc__".

(** Lines 61-71: the operands with [__numpy_ufunc__], in [with_override],
    and their positions, in [with_override_pos]; [i] is the loop counter.
    The arrays are filled from index 0 in the order of the operands. *)
Fixpoint find_overrides (i : Z) (items : list PyObject)
  : list (option PyObject) * list Z :=
  match items with
  | [] => ([], [])
  | obj :: rest =>
      let '(with_override, with_override_pos) := find_overrides (i + 1) rest in
      if PyArray_CheckExact obj || PyArray_IsAnyScalar obj
      then (with_override, with_override_pos)
      else if PyObject_HasAttrString obj "__numpy_ufunc__"
      then (Some obj :: with_override, i :: with_override_pos)
      else (with_override, with_override_pos)
  end.

(** Lines 141-143: the test of one slot [other_obj] against [obj]. *)
Definition is_subtype_instance (other_obj : option PyObject) (obj : PyObject)
  : bool :=
  bool_decide (PyObject_Type other_obj ≠ PyObject_Type (Some obj))
  && bool_decide (PyObject_IsInstance other_obj (PyObject_Type (Some obj)) ≠ 0%Z).

(** [s] is an instance of the type of [p], and of another type than [p]:
    the test of lines 141-143 on two operands. *)
Definition strict_instance (s p : PyObject) : Prop :=
  PyObject_Type (Some s) ≠ PyObject_Type (Some p)
  ∧ PyObject_IsInstance (Some s) (PyObject_Type (Some p)) ≠ 0%Z.

(** Lines 139-147: the loop over [j] from [i + 1] to [noa]; [others] is
    [with_override[i+1 .. noa-1]].  The slots are read as they are. *)
Fixpoint subtype_to_right (obj : PyObject) (others : list (option PyObject))
  : bool :=
  match others with
  | [] => false
  | other_obj :: rest =>
      if is_subtype_instance other_obj obj then true
      else subtype_to_right obj rest
  end.

(** Lines 128-154: the loop over [i]; [slots] is [with_override[i ..]]. *)
Fixpoint choose_override (i : nat) (slots : list (option PyObject))
  : option (nat * PyObject) :=
  match slots with
  | [] => None
  | None :: rest => choose_override (S i) rest
  | Some obj :: rest =>
      if subtype_to_right obj rest then choose_override (S i) rest
      else Some (i, obj)
  end.

Section Loop.
Variables (ufunc : PyObject) (method_name : string).
Variables (normal_args : list PyObject).
Variables (normal_kwds : gmap string (PyValue PyObject)).
Variables (with_override_pos : list Z).

(** Lines 119-196: [while (1)].  Every round either leaves the function
    or clears one slot, so [fuel] rounds are enough when [fuel] exceeds
    the number of slots; [None] is running out of fuel. *)
Fixpoint call_overrides (fuel : nat) (with_override : list (option PyObject))
    (calls : list (CallEvent PyObject))
  : option (Exit PyObject * list (CallEvent PyObject)) :=
  match fuel with
  | O => None
  | S fuel =>
      match choose_override 0 with_override with
      | None => Some (Return1 None AllDeclined, calls)
      | Some (i, override_obj) =>
          let override_pos := default 0%Z (with_override_pos !! i) in
          let with_override := <[i := None]> with_override in
          match PyObject_GetAttrString override_obj "__numpy_ufunc__" with
          | PyNULL exc => Some (Return1 None (Raised exc), calls)
          | PyOk numpy_ufunc =>
              let override_args :=
                BuildValue ufunc method_name override_pos normal_args in
              let calls :=
                calls ++ [Called override_obj numpy_ufunc override_args normal_kwds] in
              match PyObject_Call numpy_ufunc override_args normal_kwds with
              | PyNULL exc => Some (Return1 None (Raised exc), calls)
              | PyOk r =>
                  if decide (r = Py_NotImplemented)
                  then call_overrides fuel with_override calls
                  else Some (Return0 (Some r), calls)
              end
          end
      end
  end.
End Loop.

(** Lines 88-109: [normal_kwds], built in the heap.  [nargs] and [nin] are
    C [int]s, [nargs] at most [NPY_MAXARGS] here.  The difference
    [nargs - nin] is taken when [nargs > nin]; as a 32-bit subtraction it
    wraps only to a negative number, so that the test against 1 is the
    test on the integers.  [PyTuple_GET_ITEM(args, nargs - 1)] reads
    within the tuple, which is not empty when there is a candidate. *)
Definition build_normal_kwds (items : list PyObject) (kwds : KwdsObject PyObject)
    (nin : Z) (h : gmap loc (gmap string (PyValue PyObject)))
  : loc * gmap loc (gmap string (PyValue PyObject)) :=
  let nargs := Z.of_nat (length items) in
  let '(normal_kwds, h) :=
    match kwds with
    | KwDict d => PyDict_Copy d h
    | _ => PyDict_New h
    end in
  if bool_decide (nargs > nin)%Z then
    if bool_decide (nargs - nin = 1)%Z then
      match items !! Z.to_nat (nargs - 1) with
      | Some obj => (normal_kwds, PyDict_SetItemString normal_kwds "out" (VObj obj) h)
      | None => (normal_kwds, h)
      end
    else
      let obj := PyTuple_GetSlice items nin nargs in
      (normal_kwds, PyDict_SetItemString normal_kwds "out" (VTuple obj) h)
  else (normal_kwds, h).

(** The entries of the caller's [kwds] that line 89 copies: those of an
    exact dictionary, none otherwise. *)
Definition kwds_content (kwds : KwdsObject PyObject)
    (h : gmap loc (gmap string (PyValue PyObject)))
  : gmap string (PyValue PyObject) :=
  match kwds with
  | KwDict d => default ∅ (h !! d)
  | _ => ∅
  end.

(** The entries of [normal_kwds] once it is built. *)
Definition normal_kwds_of (items : list PyObject) (kwds : KwdsObject PyObject)
    (nin : Z) (h : gmap loc (gmap string (PyValue PyObject)))
  : gmap string (PyValue PyObject) :=
  default ∅ ((build_normal_kwds items kwds nin h).2
               !! (build_normal_kwds items kwds nin h).1).

Definition PyUFunc_CheckOverride (ufunc : PyObject) (method : string)
    (args : ArgsObject PyObject) (kwds : KwdsObject PyObject)
    (result : option PyObject) (nin : Z)
    (h : gmap loc (gmap string (PyValue PyObject)))
  : option (Outcome PyObject) :=
  match args with
  | ArgsOther _ => Some (Done (Return1 result (ValueError non_tuple_msg)) [] h)
  | ArgsTuple items =>
      let nargs := Z.of_nat (length items) in
      if bool_decide (nargs > NPY_MAXARGS)%Z
      then Some (Done (Return1 result (ValueError too_many_msg)) [] h)
      else
        let '(with_override, with_override_pos) := find_overrides 0 items in
        let noa := length with_override in
        if bool_decide (noa = 0)
        then Some (Done (Return0 None) [] h)
        else
          let normal_args := PyTuple_GetSlice items 0 nin in
          let '(normal_kwds, h) := build_normal_kwds items kwds nin h in
          let kw := default ∅ (h !! normal_kwds) in
          '(x, calls) ← call_overrides ufunc method normal_args kw
                           with_override_pos (S noa) with_override [];
          Some (Done x calls (Py_XDECREF normal_kwds h))
  end.

(** The number of slots still filled: what the loop consumes. *)
Definition filled (slots : list (option PyObject)) : nat :=
  length (filter is_Some slots).

(** What the host answered to a recorded call. *)
Definition call_of (ev : CallEvent PyObject) : PyRet PyObject :=
  PyObject_Call (ev_callable ev) (ev_args ev) (ev_kwds ev).

(** The position argument of a recorded call. *)
Definition ev_pos (ev : CallEvent PyObject) : Z := oa_pos (ev_args ev).

(** What the lookup of the override on an operand followed by its call
    gives (lines 165-178), at position [pos]. *)
Definition invoke (ufunc : PyObject) (method : string) (pos : Z)
    (normal_args : list PyObject) (kw : gmap string (PyValue PyObject))
    (obj : PyObject) : PyRet PyObject :=
  match PyObject_GetAttrString obj "__numpy_ufunc__" with
  | PyNULL exc => PyNULL exc
  | PyOk numpy_ufunc =>
      PyObject_Call numpy_ufunc (BuildValue ufunc method pos normal_args) kw
  end.

(** Two invariants of the loop.  The filled slots hold the candidates
    [cands] they were filled with at discovery; and every cleared slot has
    had its override called, at its position. *)
Definition slots_of_cands (cands : list PyObject)
    (slots : list (option PyObject)) : Prop :=
  length cands = length slots
  ∧ ∀ k obj, slots !! k = Some (Some obj) → cands !! k = Some obj.

Definition cleared_were_called (with_override_pos : list Z)
    (slots : list (option PyObject)) (calls : list (CallEvent PyObject))
  : Prop :=
  ∀ k p, slots !! k = Some None → with_override_pos !! k = Some p →
    p ∈ ev_pos <$> calls.

(** The rounds of the loop as a relation: from the slots and the calls
    made so far, to the exit and all calls made. *)
Section Rounds.
Variables (ufunc : PyObject) (method_name : string).
Variables (normal_args : list PyObject).
Variables (normal_kwds : gmap string (PyValue PyObject)).
Variables (with_override_pos : list Z).

Definition event_of (i : nat) (override_obj numpy_ufunc : PyObject)
  : CallEvent PyObject :=
  Called override_obj numpy_ufunc
    (BuildValue ufunc method_name (default 0%Z (with_override_pos !! i))
       normal_args)
    normal_kwds.

Inductive Rounds : list (option PyObject) → list (CallEvent PyObject) →
    Exit PyObject → list (CallEvent PyObject) → Prop :=
  | Rounds_exhausted slots calls :
      choose_override 0 slots = None →
      Rounds slots calls (Return1 None AllDeclined) calls
  | Rounds_no_attr slots calls i obj exc :
      choose_override 0 slots = Some (i, obj) →
      PyObject_GetAttrString obj "__numpy_ufunc__" = PyNULL exc →
      Rounds slots calls (Return1 None (Raised exc)) calls
  | Rounds_raised slots calls i obj f exc :
      choose_override 0 slots = Some (i, obj) →
      PyObject_GetAttrString obj "__numpy_ufunc__" = PyOk f →
      call_of (event_of i obj f) = PyNULL exc →
      Rounds slots calls (Return1 None (Raised exc))
        (calls ++ [event_of i obj f])
  | Rounds_accepted slots calls i obj f r :
      choose_override 0 slots = Some (i, obj) →
      PyObject_GetAttrString obj "__numpy_ufunc__" = PyOk f →
      call_of (event_of i obj f) = PyOk r →
      r ≠ Py_NotImplemented →
      Rounds slots calls (Return0 (Some r)) (calls ++ [event_of i obj f])
  | Rounds_declined slots calls i obj f x calls' :
      choose_override 0 slots = Some (i, obj) →
      PyObject_GetAttrString obj "__numpy_ufunc__" = PyOk f →
      call_of (event_of i obj f) = PyOk Py_NotImplemented →
      Rounds (<[i := None]> slots) (calls ++ [event_of i obj f]) x calls' →
      Rounds slots calls x calls'.
End Rounds.
End CheckOverride.


(** ** Three sentences of the specification, as they are written

    Each is a property of one call of the function; the theorems below say
    for which calls it holds. *)

Section Sentences.
Context {PyObject : Type} {host : Host PyObject}.
Variables (ufunc : PyObject) (method : string).
Variables (args : ArgsObject PyObject) (kwds : KwdsObject PyObject).
Variables (result : option PyObject) (nin : Z).
Variable h : gmap loc (gmap string (PyValue PyObject)).

(** Subclass precedence, for the pairs of positions that satisfy [cond]:
    when the operands at [s] and [p] are candidates and the one at [s] is
    a strict instance of the type of the one at [p], a call at position [p]
    comes after a call at position [s]. *)
Definition precedence_where (cond : nat → nat → Prop) : Prop :=
  ∀ r items, args = ArgsTuple items →
    PyUFunc_CheckOverride ufunc method args kwds result nin h = Some r →
    ∀ s p sub sup,
      cond s p →
      items !! s = Some sub → items !! p = Some sup →
      has_override sub = true → has_override sup = true →
      strict_instance sub sup →
      ∀ n ev, out_calls r !! n = Some ev → ev_pos ev = Z.of_nat p →
        ∃ m ev', m < n ∧ out_calls r !! m = Some ev'
          ∧ ev_pos ev' = Z.of_nat s.

(** ... and for all pairs, as the specification has it. *)
Definition subclass_precedence : Prop := precedence_where (λ _ _, True).

(** The two checks of lines 47-59. *)
Definition bad_args : Prop :=
  match args with
  | ArgsOther _ => True
  | ArgsTuple items => (NPY_MAXARGS < Z.of_nat (length items))%Z
  end.

(** What the specification asks of the arguments. *)
Definition well_sized : Prop :=
  ∃ items, args = ArgsTuple items
    ∧ (Z.of_nat (length items) ≤ NPY_MAXARGS)%Z
    ∧ (0 ≤ nin ≤ Z.of_nat (length items))%Z.

(** Every violation of it is reported as invalid usage. *)
Definition violations_reported : Prop :=
  ¬ well_sized →
  ∃ r e, PyUFunc_CheckOverride ufunc method args kwds result nin h = Some r
    ∧ outcome (out_exit r) = Failure e ∧ InvalidUsage e.

(** Every entry of the caller's keyword dictionary reaches every override
    that is called. *)
Definition keywords_passed_on : Prop :=
  ∀ r d m, kwds = KwDict d → h !! d = Some m →
    PyUFunc_CheckOverride ufunc method args kwds result nin h = Some r →
    ∀ ev key v, ev ∈ out_calls r → m !! key = Some v →
      ev_kwds ev !! key = Some v.
End Sentences.

(** ** A small host for examples *)

Module Demo.
(** Objects: the sentinel, a ufunc, native arrays and scalars, objects
    without the attribute, instances [inst c n] of class [c], the classes,
    their bound methods, plain values and exceptions. *)
Inductive obj : Type :=
  | NotImplemented
  | add
  | ndarray (n : nat)
  | scalar (n : nat)
  | plain (n : nat)
  | inst (c n : nat)
  | class (c : nat)
  | method (c n : nat)
  | value (n : nat)
  | exc (n : nat).

#[export] Instance obj_eq_dec : EqDecision obj.
Proof. solve_decision. Defined.

(** [sub c c'] says that class [c] derives from class [c']; [behave c n]
    is what the override of [inst c n] does when called at a position;
    [null] is the host's answer to an instance test on [NULL]. *)
Definition host (sub : nat → nat → bool) (behave : nat → nat → Z → PyRet obj)
    (null : Z) : Host obj := {|
  NPY_MAXARGS := 32;
  Py_NotImplemented := NotImplemented;
  PyArray_CheckExact o := match o with ndarray _ => true | _ => false end;
  PyArray_IsAnyScalar o := match o with scalar _ => true | _ => false end;
  PyObject_HasAttrString o name :=
    match o with
    | inst _ _ => bool_decide (name = "__numpy_ufunc__")
    | _ => false
    end;
  PyObject_GetAttrString o name :=
    match o with inst c n => PyOk (method c n) | _ => PyNULL (exc 0) end;
  PyObject_Type o :=
    match o with
    | None => None
    | Some (inst c _) => Some (class c)
    | Some _ => Some (class 0)
    end;
  PyObject_IsInstance o t :=
    match o, t with
    | None, _ => null
    | Some (inst c _), Some (class c') => if sub c c' then 1%Z else 0%Z
    | _, _ => 0%Z
    end;
  PyObject_Call f a kw :=
    match f with method c n => behave c n (oa_pos a) | _ => PyNULL (exc 1) end
|}.

(** Class hierarchies: a chain, in which a class derives from the classes
    of smaller number; and two classes that each claim the instances of
    the other, as an instance check of their own lets them. *)
Definition chain (c c' : nat) : bool := bool_decide (c' ≤ c).
Definition mutual (c c' : nat) : bool := true.
(** ... and classes without relation to each other. *)
Definition flat (c c' : nat) : bool := bool_decide (c = c').

(** Behaviours of the overrides. *)
Definition accept (c n : nat) (pos : Z) : PyRet obj := PyOk (value n).
Definition decline (c n : nat) (pos : Z) : PyRet obj := PyOk NotImplemented.
(** Class 1 declines, class 2 raises, the others accept. *)
Definition mixed (c n : nat) (pos : Z) : PyRet obj :=
  match c with
  | 1 => PyOk NotImplemented
  | 2 => PyNULL (exc n)
  | _ => PyOk (value n)
  end.

Definition run (H : Host obj) (items : list obj) (kwds : KwdsObject obj)
    (nin : Z) (h : gmap loc (gmap string (PyValue obj)))
  : option (Outcome obj) :=
  PyUFunc_CheckOverride (host := H) add "__call__" (ArgsTuple items) kwds
    None nin h.
End Demo.

(** ** The operands under the out key *)

(** The operands that an out entry stands for: the operand itself, or the
    operands of the tuple.  *)
Definition out_operands {PyObject : Type} (v : option (PyValue PyObject))
  : list PyObject :=
  match v with
  | Some (VObj o) => [o]
  | Some (VTuple items) => items
  | None => []
  end.
(** ** Candidate discovery *)

Section Discovery.
Context {PyObject : Type} {host : Host PyObject}.
Implicit Types (items : list PyObject) (obj : PyObject) (i p : Z).

Lemma find_overrides_cons i obj items :
  find_overrides i (obj :: items) =
    if has_override obj
    then (Some obj :: (find_overrides (i + 1) items).1,
          i :: (find_overrides (i + 1) items).2)
    else find_overrides (i + 1) items.
Proof.
  unfold has_override. simpl.
  destruct (find_overrides (i + 1) items) as [wo pos].
  destruct (PyArray_CheckExact obj || PyArray_IsAnyScalar obj); simpl; [done|].
  by destruct (PyObject_HasAttrString obj "__numpy_ufunc__").
Qed.

Lemma find_overrides_length i items :
  length (find_overrides i items).1 = length (find_overrides i items).2.
Proof.
  revert i. induction items as [|obj items IH]; intros i; [done|].
  rewrite find_overrides_cons. destruct (has_override obj); simpl; auto.
Qed.

(** The slots are all filled: they are the candidates, in order. *)
Lemma find_overrides_filled i items :
  (find_overrides i items).1 =
    Some <$> filter (λ o, has_override o = true) items.
Proof.
  revert i. induction items as [|obj items IH]; intros i; [done|].
  rewrite find_overrides_cons, filter_cons. case_decide as E.
  - rewrite E. simpl. by rewrite IH.
  - apply not_true_is_false in E. rewrite E. apply IH.
Qed.

(** Every recorded position is the index of its candidate in [args]. *)
Lemma find_overrides_pos i items k p :
  (find_overrides i items).2 !! k = Some p →
  ∃ obj, (find_overrides i items).1 !! k = Some (Some obj)
    ∧ (i ≤ p)%Z ∧ items !! Z.to_nat (p - i) = Some obj
    ∧ has_override obj = true.
Proof.
  revert i k. induction items as [|obj items IH]; intros i k; [done|].
  rewrite find_overrides_cons. destruct (has_override obj) eqn:E; simpl.
  - destruct k as [|k]; simpl.
    + intros [= <-]. exists obj. replace (i - i)%Z with 0%Z by lia.
      repeat split; (done || lia).
    + intros (o & ? & ? & Ho & ?)%IH. exists o. repeat split; try (done || lia).
      replace (Z.to_nat (p - i)) with (S (Z.to_nat (p - (i + 1)))) by lia.
      done.
  - intros (o & ? & ? & Ho & ?)%IH. exists o. repeat split; try (done || lia).
    replace (Z.to_nat (p - i)) with (S (Z.to_nat (p - (i + 1)))) by lia.
    done.
Qed.

(** Positions grow with the slot index. *)
Lemma find_overrides_increasing i items k1 k2 p1 p2 :
  (find_overrides i items).2 !! k1 = Some p1 →
  (find_overrides i items).2 !! k2 = Some p2 →
  k1 < k2 → (p1 < p2)%Z.
Proof.
  revert i k1 k2. induction items as [|obj items IH]; intros i k1 k2; [done|].
  rewrite find_overrides_cons. destruct (has_override obj); simpl; [|by apply IH].
  destruct k1 as [|k1], k2 as [|k2]; simpl; try lia.
  - intros [= <-] (? & ? & ? & ?)%find_overrides_pos _. lia.
  - intros ? ? ?. eapply IH; eauto. lia.
Qed.

Lemma find_overrides_inj i items k1 k2 p :
  (find_overrides i items).2 !! k1 = Some p →
  (find_overrides i items).2 !! k2 = Some p →
  k1 = k2.
Proof.
  intros H1 H2. destruct (Nat.lt_total k1 k2) as [Hlt|[->|Hlt]]; [|done|].
  - pose proof (find_overrides_increasing _ _ _ _ _ _ H1 H2 Hlt). lia.
  - pose proof (find_overrides_increasing _ _ _ _ _ _ H2 H1 Hlt). lia.
Qed.

(** Every candidate of [args] has a slot, with its index as position. *)
Lemma find_overrides_complete i items n obj :
  items !! n = Some obj → has_override obj = true →
  ∃ k, (find_overrides i items).1 !! k = Some (Some obj)
    ∧ (find_overrides i items).2 !! k = Some (i + Z.of_nat n)%Z.
Proof.
  revert i n. induction items as [|o items IH]; intros i n; [done|].
  rewrite find_overrides_cons. destruct n as [|n]; simpl.
  - intros [= ->] ->. exists 0. simpl. split; [done|]. f_equal. lia.
  - intros Hn Ho. destruct (IH (i + 1)%Z n Hn Ho) as (k & ? & Hk).
    replace (i + 1 + Z.of_nat n)%Z with (i + Z.of_nat (S n))%Z in Hk by lia.
    destruct (has_override o); [by exists (S k)|by exists k].
Qed.

Lemma find_overrides_nil i items :
  (find_overrides i items).1 = [] ↔
  ∀ obj, obj ∈ items → has_override obj = false.
Proof.
  rewrite find_overrides_filled. split.
  - intros Hnil%fmap_nil_inv obj Hin. destruct (has_override obj) eqn:E; [|done].
    by destruct (filter_nil_not_elem_of _ _ obj Hnil E).
  - intros Hall. induction items as [|o items IH]; [done|].
    rewrite filter_cons, decide_False.
    + apply IH. intros obj Hin. apply Hall. by right.
    + rewrite (Hall o) by left. done.
Qed.
End Discovery.

(** ** Choosing the override of a round *)

Section Selection.
Context {PyObject : Type} {host : Host PyObject}.
Implicit Types (obj : PyObject) (slots others : list (option PyObject)).

Lemma is_subtype_instance_Some s p :
  is_subtype_instance (Some s) p = true ↔ strict_instance s p.
Proof.
  unfold is_subtype_instance, strict_instance.
  rewrite andb_true_iff, !bool_decide_eq_true. done.
Qed.

Lemma is_subtype_instance_NULL p :
  PyObject_IsInstance None (PyObject_Type (Some p)) = 0%Z →
  is_subtype_instance None p = false.
Proof.
  intros E. unfold is_subtype_instance. rewrite E.
  rewrite (bool_decide_eq_false_2 (0%Z ≠ 0%Z)) by auto. apply andb_false_r.
Qed.

Lemma strict_instance_irrefl s : ¬ strict_instance s s.
Proof. by intros [? _]. Qed.

Lemma subtype_to_right_true obj others :
  subtype_to_right obj others = true ↔
  ∃ j other_obj, others !! j = Some other_obj
    ∧ is_subtype_instance other_obj obj = true.
Proof.
  induction others as [|o others IH]; simpl.
  - split; [done|]. by intros (j & ? & ? & _).
  - destruct (is_subtype_instance o obj) eqn:E.
    + split; [|done]. intros _. by exists 0, o.
    + rewrite IH. split.
      * intros (j & other & ? & ?). by exists (S j), other.
      * intros ([|j] & other & Hj & Ho); simpl in Hj.
        -- congruence.
        -- by exists j, other.
Qed.

Lemma subtype_to_right_false obj others j other_obj :
  subtype_to_right obj others = false →
  others !! j = Some other_obj →
  is_subtype_instance other_obj obj = false.
Proof.
  intros Hf Hj. apply not_true_is_false. intros Ht.
  assert (subtype_to_right obj others = true) as Hs
    by (apply subtype_to_right_true; eauto).
  congruence.
Qed.

(** What the loop over [i] has established when it leaves with a choice:
    the chosen slot is filled, nothing to its right disqualifies it, and
    every filled slot before it was disqualified. *)
Lemma choose_override_Some i slots k obj :
  choose_override i slots = Some (k, obj) →
  ∃ n, k = i + n
    ∧ slots !! n = Some (Some obj)
    ∧ subtype_to_right obj (drop (S n) slots) = false
    ∧ ∀ m o, m < n → slots !! m = Some (Some o) →
        subtype_to_right o (drop (S m) slots) = true.
Proof.
  revert i. induction slots as [|[o|] slots IH]; intros i; simpl; [done| |].
  - destruct (subtype_to_right o slots) eqn:E.
    + intros (n & -> & ? & ? & Hlt)%IH. exists (S n).
      split; [lia|]. do 2 (split; [done|]).
      intros [|m] o' ? Hm; simpl in Hm.
      * by injection Hm as <-.
      * apply Hlt; [lia|done].
    + intros [= <- <-]. exists 0. split; [lia|]. do 2 (split; [done|]).
      intros; lia.
  - intros (n & -> & ? & ? & Hlt)%IH. exists (S n).
    split; [lia|]. do 2 (split; [done|]).
    intros [|m] o' ? Hm; simpl in Hm; [done|]. apply Hlt; [lia|done].
Qed.

(** ... and when it leaves without one: no filled slot was acceptable. *)
Lemma choose_override_None i slots m o :
  choose_override i slots = None →
  slots !! m = Some (Some o) →
  subtype_to_right o (drop (S m) slots) = true.
Proof.
  revert i m. induction slots as [|[o'|] slots IH]; intros i m; simpl; [done| |].
  - destruct (subtype_to_right o' slots) eqn:E; [|done].
    intros Hn. destruct m as [|m]; simpl.
    + by intros [= <-].
    + by apply IH with (i := S i).
  - intros Hn. destruct m as [|m]; simpl; [done|]. by apply IH with (i := S i).
Qed.

Lemma choose_override_lookup slots k obj :
  choose_override 0 slots = Some (k, obj) → slots !! k = Some (Some obj).
Proof. by intros (n & -> & ? & _)%choose_override_Some. Qed.

(** A filled slot to the right of the chosen one is never a strict
    instance of the chosen operand's type. *)
Lemma chosen_no_subtype_right slots k obj s sub :
  choose_override 0 slots = Some (k, obj) →
  k < s → slots !! s = Some (Some sub) → ¬ strict_instance sub obj.
Proof.
  intros (n & -> & _ & Hr & _)%choose_override_Some Hlt Hs Hstrict.
  simpl in Hlt.
  assert (drop (S n) slots !! (s - S n) = Some (Some sub)) as Hd.
  { rewrite lookup_drop. by replace (S n + (s - S n)) with s by lia. }
  pose proof (subtype_to_right_false _ _ _ _ Hr Hd) as Hf.
  apply is_subtype_instance_Some in Hstrict. congruence.
Qed.

(** With a transitive instance relation, and a host that answers no for
    [NULL], the chosen operand has no strict instance of its type among
    the filled slots at all. *)
Lemma chosen_is_most_specific slots k obj s sub :
  (∀ a b c, strict_instance a b → strict_instance b c → strict_instance a c) →
  (∀ t, PyObject_IsInstance None t = 0%Z) →
  choose_override 0 slots = Some (k, obj) →
  slots !! s = Some (Some sub) → ¬ strict_instance sub obj.
Proof.
  intros Htrans Hnull Hc.
  assert (∀ d s sub, k - s ≤ d → slots !! s = Some (Some sub) →
            ¬ strict_instance sub obj) as Hall; [|by eapply Hall].
  clear s sub. intros d. induction d as [d IH] using lt_wf_ind.
  intros s sub Hd Hs Hstrict.
  destruct (Nat.lt_total k s) as [Hlt|[->|Hlt]].
  - by eapply chosen_no_subtype_right.
  - apply choose_override_lookup in Hc. rewrite Hc in Hs.
    injection Hs as <-. by eapply strict_instance_irrefl.
  - destruct (choose_override_Some _ _ _ _ Hc) as (n & -> & _ & _ & Hleft).
    simpl in Hlt.
    apply (Hleft _ _ Hlt) in Hs as Hdis.
    apply subtype_to_right_true in Hdis as (j & [T|] & Hj & HT).
    + rewrite lookup_drop in Hj. apply is_subtype_instance_Some in HT.
      apply (IH (n - S s)) with (s := S s + j) (sub := T); [lia|simpl; lia|done|].
      by eapply Htrans.
    + rewrite is_subtype_instance_NULL in HT by apply Hnull. done.
Qed.
End Selection.

(** ** The loop *)

Section LoopFacts.
Context {PyObject : Type} {host : Host PyObject}.
Variables (ufunc : PyObject) (method_name : string).
Variables (normal_args : list PyObject).
Variables (normal_kwds : gmap string (PyValue PyObject)).
Variables (with_override_pos : list Z).

Local Abbreviation loop :=
  (call_overrides ufunc method_name normal_args normal_kwds with_override_pos).
Local Abbreviation rounds :=
  (Rounds ufunc method_name normal_args normal_kwds with_override_pos).
Local Abbreviation event :=
  (event_of ufunc method_name normal_args normal_kwds with_override_pos).

Lemma filled_clear (slots : list (option PyObject)) i obj :
  slots !! i = Some (Some obj) → filled slots = S (filled (<[i := None]> slots)).
Proof.
  unfold filled. revert i. induction slots as [|o slots IH]; intros i; [done|].
  destruct i as [|i]; simpl.
  - intros [= ->]. rewrite !filter_cons.
    rewrite decide_True by done. rewrite decide_False by (by intros [? ?]).
    done.
  - intros Hi. rewrite !filter_cons. case_decide; simpl; rewrite (IH i Hi); done.
Qed.

Lemma filled_le_length (slots : list (option PyObject)) :
  filled slots ≤ length slots.
Proof. apply length_filter. Qed.

(** A run of the loop is a sequence of rounds. *)
Lemma call_overrides_rounds fuel slots calls x calls' :
  loop fuel slots calls = Some (x, calls') → rounds slots calls x calls'.
Proof.
  revert slots calls. induction fuel as [|fuel IH]; intros slots calls; [done|].
  simpl. destruct (choose_override 0 slots) as [[i obj]|] eqn:Hc.
  - destruct (PyObject_GetAttrString obj "__numpy_ufunc__") as [exc|f] eqn:Hf.
    + intros [= <- <-]. by eapply Rounds_no_attr.
    + destruct (PyObject_Call _ _ _) as [exc|r] eqn:Hr.
      * intros [= <- <-]. by eapply Rounds_raised.
      * case_decide as Hd.
        -- subst r. intros Hl. eapply Rounds_declined; eauto.
        -- intros [= <- <-]. by eapply Rounds_accepted.
  - intros [= <- <-]. by apply Rounds_exhausted.
Qed.

(** The loop ends: with more fuel than filled slots it returns. *)
Lemma call_overrides_total fuel slots calls :
  filled slots < fuel → is_Some (loop fuel slots calls).
Proof.
  revert slots calls. induction fuel as [|fuel IH]; intros slots calls; [lia|].
  intros Hlt. simpl. destruct (choose_override 0 slots) as [[i obj]|] eqn:Hc; [|done].
  destruct (PyObject_GetAttrString obj "__numpy_ufunc__") as [exc|f]; [done|].
  destruct (PyObject_Call _ _ _) as [exc|r]; [done|].
  case_decide; [|done]. apply IH.
  apply choose_override_lookup, filled_clear in Hc. lia.
Qed.
End LoopFacts.

(** ** What a sequence of rounds does *)

Section RoundsFacts.
Context {PyObject : Type} {host : Host PyObject}.
Variables (ufunc : PyObject) (method_name : string).
Variables (normal_args : list PyObject).
Variables (normal_kwds : gmap string (PyValue PyObject)).
Variables (with_override_pos : list Z).

Local Abbreviation rounds :=
  (Rounds ufunc method_name normal_args normal_kwds with_override_pos).
Local Abbreviation event :=
  (event_of ufunc method_name normal_args normal_kwds with_override_pos).

Implicit Types (slots : list (option PyObject)).
Implicit Types (calls : list (CallEvent PyObject)).

(** Calls are only ever added at the end. *)
Lemma rounds_prefix slots calls x calls' :
  rounds slots calls x calls' → ∃ new, calls' = calls ++ new.
Proof.
  induction 1 as [| | | |slots calls i obj f x calls' _ _ _ _ [new ->]].
  - exists []. by rewrite app_nil_r.
  - exists []. by rewrite app_nil_r.
  - by eexists.
  - by eexists.
  - eexists. by rewrite <-app_assoc.
Qed.

Lemma rounds_lookup_old slots calls x calls' n ev :
  rounds slots calls x calls' → calls !! n = Some ev → calls' !! n = Some ev.
Proof.
  intros [new ->]%rounds_prefix Hn. by apply lookup_app_l_Some.
Qed.

(** Clearing a slot only removes a filled slot. *)
Lemma cleared_filled slots i k obj :
  <[i := None]> slots !! k = Some (Some obj) →
  k ≠ i ∧ slots !! k = Some (Some obj).
Proof.
  intros Hk. destruct (decide (k = i)) as [->|Hne].
  - apply lookup_lt_Some in Hk as Hlt. rewrite length_insert in Hlt.
    rewrite list_lookup_insert_eq in Hk by done. done.
  - by rewrite list_lookup_insert_ne in Hk by done.
Qed.

Lemma cleared_empty slots i k :
  <[i := None]> slots !! k = Some None →
  k = i ∨ slots !! k = Some None.
Proof.
  intros Hk. destruct (decide (k = i)) as [->|Hne]; [by left|right].
  by rewrite list_lookup_insert_ne in Hk by done.
Qed.

(** Every call made is the call of the override of a slot that was filled,
    with the arguments of lines 171-172 and the normalized keywords. *)
Lemma rounds_events slots calls x calls' ev :
  rounds slots calls x calls' → ev ∈ calls' →
  ev ∈ calls ∨ ∃ i obj f, slots !! i = Some (Some obj)
    ∧ PyObject_GetAttrString obj "__numpy_ufunc__" = PyOk f
    ∧ ev = event i obj f.
Proof.
  induction 1 as [| |slots calls i obj f exc Hc Hf _
                    |slots calls i obj f r Hc Hf _ _
                    |slots calls i obj f x calls' Hc Hf _ _ IH]; auto.
  - intros [?| ->%list_elem_of_singleton]%elem_of_app; [by left|right].
    exists i, obj, f. by apply choose_override_lookup in Hc.
  - intros [?| ->%list_elem_of_singleton]%elem_of_app; [by left|right].
    exists i, obj, f. by apply choose_override_lookup in Hc.
  - intros [[?| ->%list_elem_of_singleton]%elem_of_app
           |(k & o & g & [_ Hk]%cleared_filled & ? & ?)]%IH.
    + by left.
    + right. exists i, obj, f. by apply choose_override_lookup in Hc.
    + right. by exists k, o, g.
Qed.

(** The exit, read against the calls made. *)
Lemma rounds_exit slots calls x calls' :
  rounds slots calls x calls' →
  match x with
  | Return0 (Some r) =>
      ∃ pre ev, calls' = pre ++ [ev] ∧ length calls ≤ length pre
        ∧ call_of ev = PyOk r ∧ r ≠ Py_NotImplemented
  | Return0 None => False
  | Return1 res _ => res = None
  end.
Proof.
  induction 1; try done.
  - by exists calls, (event i obj f).
  - destruct x as [[r|]|res e]; try done.
    destruct IHRounds as (pre & ev & -> & Hlen & ? & ?).
    exists pre, ev. rewrite length_app in Hlen. simpl in Hlen.
    repeat split; (done || lia).
Qed.

(** A call that raises is the last one, and its exception is the error. *)
Lemma rounds_raise slots calls x calls' n ev exc :
  rounds slots calls x calls' →
  calls' !! n = Some ev → length calls ≤ n → call_of ev = PyNULL exc →
  S n = length calls' ∧ x = Return1 None (Raised exc).
Proof.
  induction 1 as [slots calls _|slots calls i obj e _ _
                 |slots calls i obj f e Hc Hf Hr
                 |slots calls i obj f r Hc Hf Hr Hne
                 |slots calls i obj f x calls' Hc Hf Hr Hrest IH].
  - intros Hn%lookup_lt_Some. lia.
  - intros Hn%lookup_lt_Some. lia.
  - intros Hn Hle Hex. apply lookup_lt_Some in Hn as Hlt.
    rewrite length_app in *. simpl in *.
    assert (n = length calls) as -> by lia.
    rewrite list_lookup_middle in Hn by done. injection Hn as <-.
    split; [lia|]. congruence.
  - intros Hn Hle Hex. apply lookup_lt_Some in Hn as Hlt.
    rewrite length_app in *. simpl in *.
    assert (n = length calls) as -> by lia.
    rewrite list_lookup_middle in Hn by done. injection Hn as <-. congruence.
  - intros Hn Hle Hex. destruct (decide (n = length calls)) as [->|Hne].
    + rewrite (rounds_lookup_old _ _ _ _ (length calls) (event i obj f) Hrest)
        in Hn by by apply list_lookup_middle.
      injection Hn as <-. congruence.
    + apply IH; [done| |done]. rewrite length_app. simpl. lia.
Qed.

(** When every filled slot's override declines, the loop ends at line 159. *)
Lemma rounds_all_decline slots calls x calls' :
  rounds slots calls x calls' →
  (∀ i obj, slots !! i = Some (Some obj) →
     invoke ufunc method_name (default 0%Z (with_override_pos !! i))
       normal_args normal_kwds obj = PyOk Py_NotImplemented) →
  x = Return1 None AllDeclined.
Proof.
  unfold invoke.
  induction 1 as [|slots calls i obj e Hc Hf
                 |slots calls i obj f e Hc Hf Hr
                 |slots calls i obj f r Hc Hf Hr Hne
                 |slots calls i obj f x calls' Hc Hf Hr Hrest IH];
    intros Hall; [done|..];
    pose proof (Hall _ _ (choose_override_lookup _ _ _ Hc)) as Hi;
    rewrite Hf in Hi; unfold call_of, event_of in *; simpl in *;
    try congruence.
  apply IH. intros k o [_ Hk]%cleared_filled. by apply Hall.
Qed.

Lemma event_pos i obj f p :
  with_override_pos !! i = Some p → ev_pos (event i obj f) = p.
Proof. unfold ev_pos, event_of. simpl. by intros ->. Qed.

Lemma pos_of_slot slots i (o : option PyObject) :
  length with_override_pos = length slots → slots !! i = Some o →
  ∃ p, with_override_pos !! i = Some p.
Proof.
  intros Hlen Hi%lookup_lt_Some. apply lookup_lt_is_Some. lia.
Qed.

(** No position is called twice: a slot is cleared when it is chosen, and
    a cleared slot is never chosen. *)
Lemma rounds_nodup slots calls x calls' :
  NoDup with_override_pos →
  rounds slots calls x calls' →
  length with_override_pos = length slots →
  NoDup (ev_pos <$> calls) →
  (∀ i obj p, slots !! i = Some (Some obj) →
     with_override_pos !! i = Some p → p ∉ ev_pos <$> calls) →
  NoDup (ev_pos <$> calls').
Proof.
  intros Hinj.
  assert (∀ slots calls i obj f,
    choose_override 0 slots = Some (i, obj) →
    length with_override_pos = length slots →
    NoDup (ev_pos <$> calls) →
    (∀ i obj p, slots !! i = Some (Some obj) →
       with_override_pos !! i = Some p → p ∉ ev_pos <$> calls) →
    NoDup (ev_pos <$> (calls ++ [event i obj f]))) as Hstep.
  { clear. intros slots calls i obj f Hc%choose_override_lookup Hlen Hnd Hnew.
    destruct (pos_of_slot _ _ _ Hlen Hc) as [p Hp].
    rewrite fmap_app. simpl. rewrite (event_pos _ _ _ _ Hp).
    apply NoDup_app. split; [done|]. split; [|apply NoDup_singleton].
    intros q Hq ->%list_elem_of_singleton. by eapply Hnew. }
  induction 1 as [| |slots calls i obj f e Hc Hf Hr
                 |slots calls i obj f r Hc Hf Hr Hne
                 |slots calls i obj f x calls' Hc Hf Hr Hrest IH];
    intros Hlen Hnd Hnew; eauto.
  apply IH.
  - by rewrite length_insert.
  - eauto.
  - intros k o p [Hki Hk]%cleared_filled Hp.
    apply choose_override_lookup in Hc.
    destruct (pos_of_slot _ _ _ Hlen Hc) as [q Hq].
    rewrite fmap_app. simpl. rewrite (event_pos _ _ _ _ Hq).
    intros [Hin| ->%list_elem_of_singleton]%elem_of_app.
    + by eapply Hnew.
    + apply Hki. by eapply (NoDup_lookup with_override_pos).
Qed.

(** Subclass precedence.  [cands] are the operands the slots were filled
    with.  [ok i k] stands for a condition on two slots under which the
    choice of slot [i] is known to respect slot [k]: then a call at the
    position of slot [i] is preceded by a call at the position of every
    slot [k] with [ok i k] whose candidate is a strict instance of the type
    of the operand called. *)
Section Order.
Variable ok : nat → nat → Prop.
Hypothesis Hsel :
  ∀ slots i obj k sub,
    choose_override 0 slots = Some (i, obj) →
    slots !! k = Some (Some sub) → ok i k → ¬ strict_instance sub obj.
Variable cands : list PyObject.

Local Abbreviation slots_of_cands := (slots_of_cands cands).
Local Abbreviation cleared_were_called :=
  (cleared_were_called with_override_pos).

Lemma chosen_after_subtypes slots calls i obj k sub p :
  choose_override 0 slots = Some (i, obj) →
  slots_of_cands slots → cleared_were_called slots calls →
  cands !! k = Some sub → with_override_pos !! k = Some p →
  ok i k → strict_instance sub obj →
  ∃ m ev', m < length calls ∧ calls !! m = Some ev' ∧ ev_pos ev' = p.
Proof.
  intros Hc [Hlen Hsl] Hcl Hk Hp Hok Hstrict.
  assert (is_Some (slots !! k)) as [[o|] Ho].
  { apply lookup_lt_is_Some. apply lookup_lt_Some in Hk. lia. }
  - pose proof (Hsl _ _ Ho) as Hk'. rewrite Hk in Hk'. injection Hk' as <-.
    by destruct (Hsel _ _ _ _ _ Hc Ho Hok).
  - pose proof (Hcl _ _ Ho Hp) as Hin.
    apply list_elem_of_lookup in Hin as [m Hm].
    rewrite list_lookup_fmap in Hm.
    destruct (calls !! m) as [ev'|] eqn:E; [|done].
    injection Hm as Hm. exists m, ev'. apply lookup_lt_Some in E as Hlt. done.
Qed.

Lemma clear_preserves slots calls i obj f :
  choose_override 0 slots = Some (i, obj) →
  length with_override_pos = length slots →
  slots_of_cands slots → cleared_were_called slots calls →
  slots_of_cands (<[i := None]> slots)
  ∧ cleared_were_called (<[i := None]> slots) (calls ++ [event i obj f]).
Proof.
  intros Hc%choose_override_lookup Hlen [Hl Hsl] Hcl. split; [split|].
  - by rewrite length_insert.
  - intros k o [_ Hk]%cleared_filled. by apply Hsl.
  - intros k p [->|Hk]%cleared_empty Hp; rewrite fmap_app, elem_of_app.
    + right. simpl. rewrite (event_pos _ _ _ _ Hp). by left.
    + left. by eapply Hcl.
Qed.

(** The call of a round, and the calls before it. *)
Lemma round_order slots calls i obj f k sub p :
  choose_override 0 slots = Some (i, obj) →
  length with_override_pos = length slots →
  slots_of_cands slots → cleared_were_called slots calls →
  cands !! k = Some sub → with_override_pos !! k = Some p →
  (∀ j, with_override_pos !! j = Some (ev_pos (event i obj f)) → ok j k) →
  strict_instance sub obj →
  ∃ m ev', m < length calls ∧ calls !! m = Some ev' ∧ ev_pos ev' = p.
Proof.
  intros Hc Hlen Hsl Hcl Hk Hp Hok Hstrict.
  eapply chosen_after_subtypes; eauto.
  apply Hok. apply choose_override_lookup in Hc.
  destruct (pos_of_slot _ _ _ Hlen Hc) as [q Hq].
  by rewrite (event_pos _ _ _ _ Hq).
Qed.

Lemma rounds_order slots calls x calls' n ev k sub p :
  rounds slots calls x calls' →
  length with_override_pos = length slots →
  slots_of_cands slots → cleared_were_called slots calls →
  calls' !! n = Some ev → length calls ≤ n →
  cands !! k = Some sub → with_override_pos !! k = Some p →
  (∀ j, with_override_pos !! j = Some (ev_pos ev) → ok j k) →
  strict_instance sub (ev_obj ev) →
  ∃ m ev', m < n ∧ calls' !! m = Some ev' ∧ ev_pos ev' = p.
Proof.
  intros Hr. revert n.
  induction Hr as [slots calls _|slots calls i obj e _ _
                  |slots calls i obj f e Hc Hf Hr
                  |slots calls i obj f r Hc Hf Hr Hne
                  |slots calls i obj f x calls' Hc Hf Hr Hrest IH];
    intros n Hlen Hsl Hcl Hn Hle Hk Hp Hok Hstrict.
  - apply lookup_lt_Some in Hn. lia.
  - apply lookup_lt_Some in Hn. lia.
  - apply lookup_lt_Some in Hn as Hlt. rewrite length_app in Hlt. simpl in Hlt.
    assert (n = length calls) as -> by lia.
    rewrite list_lookup_middle in Hn by done. injection Hn as <-.
    destruct (round_order _ _ _ _ _ _ _ _ Hc Hlen Hsl Hcl Hk Hp Hok Hstrict)
      as (m & ev' & ? & Hm & ?).
    exists m, ev'. repeat split; [done| |done]. by apply lookup_app_l_Some.
  - apply lookup_lt_Some in Hn as Hlt. rewrite length_app in Hlt. simpl in Hlt.
    assert (n = length calls) as -> by lia.
    rewrite list_lookup_middle in Hn by done. injection Hn as <-.
    destruct (round_order _ _ _ _ _ _ _ _ Hc Hlen Hsl Hcl Hk Hp Hok Hstrict)
      as (m & ev' & ? & Hm & ?).
    exists m, ev'. repeat split; [done| |done]. by apply lookup_app_l_Some.
  - destruct (decide (n = length calls)) as [->|Hne].
    + rewrite (rounds_lookup_old _ _ _ _ (length calls) (event i obj f) Hrest)
        in Hn by by apply list_lookup_middle.
      injection Hn as <-.
      destruct (round_order _ _ _ _ _ _ _ _ Hc Hlen Hsl Hcl Hk Hp Hok Hstrict)
        as (m & ev' & ? & Hm & ?).
      exists m, ev'. repeat split; [done| |done].
      eapply rounds_lookup_old; [done|]. by apply lookup_app_l_Some.
    + destruct (clear_preserves _ _ _ _ f Hc Hlen Hsl Hcl) as [Hsl' Hcl'].
      eapply IH; eauto.
      * by rewrite length_insert.
      * rewrite length_app. simpl. lia.
Qed.
End Order.
End RoundsFacts.

(** ** Normalization of the keywords *)

Section Normalization.
Context {PyObject : Type} {host : Host PyObject}.
Implicit Types (items : list PyObject) (kwds : KwdsObject PyObject).
Implicit Types (h : gmap loc (gmap string (PyValue PyObject))).

Lemma fresh_unused h : h !! fresh (dom h) = None.
Proof. apply not_elem_of_dom, is_fresh. Qed.

(** [normal_kwds] is a dictionary of its own: it sits at a location that
    the caller's heap does not use. *)
Lemma build_normal_kwds_loc items kwds nin h :
  (build_normal_kwds items kwds nin h).1 = fresh (dom h).
Proof.
  unfold build_normal_kwds, PyDict_Copy, PyDict_New.
  destruct kwds; repeat case_bool_decide; try done;
    by destruct (items !! _).
Qed.

(** Building it leaves every other location as it was. *)
Lemma build_normal_kwds_frame items kwds nin h l :
  l ≠ fresh (dom h) → (build_normal_kwds items kwds nin h).2 !! l = h !! l.
Proof.
  intros Hne.
  unfold build_normal_kwds, PyDict_Copy, PyDict_New, PyDict_SetItemString.
  destruct kwds; repeat case_bool_decide; try destruct (items !! _); simpl;
    rewrite ?lookup_alter_ne by done; by rewrite lookup_insert_ne.
Qed.

(** Releasing it gives the caller's heap back. *)
Lemma build_normal_kwds_release items kwds nin h :
  Py_XDECREF (build_normal_kwds items kwds nin h).1
    (build_normal_kwds items kwds nin h).2 = h.
Proof.
  pose proof (fresh_unused h) as Hf.
  unfold build_normal_kwds, PyDict_Copy, PyDict_New, PyDict_SetItemString,
    Py_XDECREF.
  destruct kwds; repeat case_bool_decide; try destruct (items !! _); simpl;
    rewrite ?delete_alter_eq; by apply delete_insert_id.
Qed.

(** Its entries: those copied from [kwds], and the out entry of lines
    99-109. *)
Lemma normal_kwds_of_eq items kwds nin h :
  normal_kwds_of items kwds nin h =
    let nargs := Z.of_nat (length items) in
    if bool_decide (nargs > nin)%Z then
      if bool_decide (nargs - nin = 1)%Z then
        match items !! Z.to_nat (nargs - 1) with
        | Some obj => <["out" := VObj obj]> (kwds_content kwds h)
        | None => kwds_content kwds h
        end
      else <["out" := VTuple (PyTuple_GetSlice items nin nargs)]>
             (kwds_content kwds h)
    else kwds_content kwds h.
Proof.
  unfold normal_kwds_of, build_normal_kwds, PyDict_Copy, PyDict_New,
    PyDict_SetItemString, kwds_content.
  destruct kwds; simpl; repeat case_bool_decide;
    try destruct (items !! _); simpl;
    rewrite ?lookup_alter_eq, ?lookup_insert_eq; done.
Qed.
End Normalization.

(** ** The function as a whole *)

Section Whole.
Context {PyObject : Type} {host : Host PyObject}.
Implicit Types (items : list PyObject) (kwds : KwdsObject PyObject).
Implicit Types (h : gmap loc (gmap string (PyValue PyObject))).

(** The paths through the function.  On each of them the function returns,
    and the heap it leaves is the heap it was given. *)
Lemma CheckOverride_cases ufunc method args kwds result nin h :
  ∃ x calls,
    PyUFunc_CheckOverride ufunc method args kwds result nin h
      = Some (Done x calls h)
    ∧ match args with
      | ArgsOther _ =>
          x = Return1 result (ValueError non_tuple_msg) ∧ calls = []
      | ArgsTuple items =>
          if bool_decide (Z.of_nat (length items) > NPY_MAXARGS)%Z
          then x = Return1 result (ValueError too_many_msg) ∧ calls = []
          else if bool_decide ((find_overrides 0 items).1 = [])
          then x = Return0 None ∧ calls = []
          else Rounds ufunc method (PyTuple_GetSlice items 0 nin)
                 (normal_kwds_of items kwds nin h) (find_overrides 0 items).2
                 (find_overrides 0 items).1 [] x calls
      end.
Proof.
  unfold PyUFunc_CheckOverride.
  destruct args as [items|o]; [|by eexists _, _].
  case_bool_decide; [by eexists _, _|].
  destruct (find_overrides 0 items) as [wo pos] eqn:Hfind. cbn [fst snd].
  case_bool_decide as Hnoa.
  - apply nil_length_inv in Hnoa as ->.
    rewrite bool_decide_eq_true_2 by done. by eexists _, _.
  - rewrite bool_decide_eq_false_2 by (by intros ->).
    pose proof (build_normal_kwds_release items kwds nin h) as Hrel.
    unfold normal_kwds_of.
    destruct (build_normal_kwds items kwds nin h) as [l h'] eqn:Hb.
    cbn [fst snd] in *.
    destruct (call_overrides_total ufunc method (PyTuple_GetSlice items 0 nin)
                (default ∅ (h' !! l)) pos (S (length wo)) wo [])
      as [[x calls] Hloop].
    { pose proof (filled_le_length wo). lia. }
    rewrite Hloop. cbn [mbind option_bind]. rewrite Hrel.
    exists x, calls. split; [done|].
    by eapply call_overrides_rounds.
Qed.
End Whole.

(** ** More on discovery, slices and rounds *)

Section MoreFacts.
Context {PyObject : Type} {host : Host PyObject}.
Implicit Types (items pre mid post : list PyObject) (obj : PyObject).

Lemma find_overrides_none i items :
  (∀ obj, obj ∈ items → has_override obj = false) →
  find_overrides i items = ([], []).
Proof.
  revert i. induction items as [|o items IH]; intros i Hall; [done|].
  rewrite find_overrides_cons, (Hall o) by left.
  apply IH. intros obj Hin. apply Hall. by right.
Qed.

Lemma find_overrides_app i pre post :
  find_overrides i (pre ++ post) =
    ((find_overrides i pre).1
       ++ (find_overrides (i + Z.of_nat (length pre)) post).1,
     (find_overrides i pre).2
       ++ (find_overrides (i + Z.of_nat (length pre)) post).2).
Proof.
  revert i. induction pre as [|o pre IH]; intros i.
  - simpl. replace (i + Z.of_nat 0)%Z with i by lia.
    by destruct (find_overrides i post).
  - rewrite <-app_comm_cons, !find_overrides_cons, IH.
    replace (i + 1 + Z.of_nat (length pre))%Z
      with (i + Z.of_nat (length (o :: pre)))%Z by (simpl; lia).
    by destruct (has_override o).
Qed.

(** One candidate among operands that are none. *)
Lemma find_overrides_single pre obj post :
  (∀ o, o ∈ pre ++ post → has_override o = false) →
  has_override obj = true →
  find_overrides 0 (pre ++ obj :: post)
    = ([Some obj], [Z.of_nat (length pre)]).
Proof.
  intros Hnone Hobj.
  rewrite find_overrides_app, find_overrides_cons, Hobj.
  rewrite !find_overrides_none; [done|..];
    intros o Hin; apply Hnone, elem_of_app; auto.
Qed.

(** Two candidates among operands that are none. *)
Lemma find_overrides_pair pre a mid b post :
  (∀ o, o ∈ pre ++ mid ++ post → has_override o = false) →
  has_override a = true → has_override b = true →
  find_overrides 0 (pre ++ a :: mid ++ b :: post)
    = ([Some a; Some b],
       [Z.of_nat (length pre); Z.of_nat (length pre + S (length mid))]).
Proof.
  intros Hnone Ha Hb.
  rewrite find_overrides_app, find_overrides_cons, Ha.
  rewrite find_overrides_app, find_overrides_cons, Hb.
  rewrite !find_overrides_none; [simpl; do 4 f_equal; lia|..];
    intros o Hin; apply Hnone; rewrite !elem_of_app; auto.
Qed.

(** The slices the function takes, when [nin] is in range or not. *)
Lemma PyTuple_GetSlice_prefix items nin :
  PyTuple_GetSlice items 0 nin = take (Z.to_nat nin) items.
Proof.
  unfold PyTuple_GetSlice. rewrite drop_0.
  destruct (decide (nin ≤ Z.of_nat (length items))%Z).
  - f_equal. lia.
  - rewrite !take_ge by lia. done.
Qed.

Lemma PyTuple_GetSlice_suffix items nin :
  (nin < Z.of_nat (length items))%Z →
  PyTuple_GetSlice items nin (Z.of_nat (length items))
    = drop (Z.to_nat nin) items.
Proof.
  intros Hlt. unfold PyTuple_GetSlice.
  replace (Z.to_nat (0 `max` nin)) with (Z.to_nat nin) by lia.
  apply take_ge. rewrite length_drop. lia.
Qed.

Section Rounds.
Variables (ufunc : PyObject) (method_name : string).
Variables (normal_args : list PyObject).
Variables (normal_kwds : gmap string (PyValue PyObject)).
Variables (with_override_pos : list Z).

Local Abbreviation rounds :=
  (Rounds ufunc method_name normal_args normal_kwds with_override_pos).
Local Abbreviation event :=
  (event_of ufunc method_name normal_args normal_kwds with_override_pos).

(** The rounds are determined by the slots. *)
Lemma Rounds_deterministic slots calls x1 calls1 x2 calls2 :
  rounds slots calls x1 calls1 → rounds slots calls x2 calls2 →
  x1 = x2 ∧ calls1 = calls2.
Proof.
  intros H1. revert x2 calls2.
  induction H1 as [slots calls Hc|slots calls i obj e Hc Hf
                  |slots calls i obj f e Hc Hf Hr
                  |slots calls i obj f r Hc Hf Hr Hne
                  |slots calls i obj f x calls' Hc Hf Hr Hrest IH];
    intros x2 calls2 H2; inversion H2; subst;
    repeat match goal with
      | H : choose_override 0 slots = _, H' : choose_override 0 slots = _ |- _ =>
          rewrite H in H'; simplify_eq
      | H : PyObject_GetAttrString ?o _ = _,
        H' : PyObject_GetAttrString ?o _ = _ |- _ =>
          rewrite H in H'; simplify_eq
      | H : call_of ?e = _, H' : call_of ?e = _ |- _ =>
          rewrite H in H'; simplify_eq
      end; auto.
Qed.

(** The errors that the loop raises or lets through: never a
    [ValueError] of the function's own. *)
Lemma rounds_errors slots calls x calls' res e :
  rounds slots calls x calls' → x = Return1 res e →
  e = AllDeclined ∨ ∃ exc, e = Raised exc.
Proof.
  induction 1; intros Hx; simplify_eq; eauto.
Qed.

(** When the lookups succeed and every call made declines, the loop ends
    at line 159. *)
Lemma rounds_all_declined slots calls x calls' :
  rounds slots calls x calls' →
  (∀ i obj, slots !! i = Some (Some obj) →
     ∃ f, PyObject_GetAttrString obj "__numpy_ufunc__" = PyOk f) →
  (∀ n ev, calls' !! n = Some ev → length calls ≤ n →
     call_of ev = PyOk Py_NotImplemented) →
  x = Return1 None AllDeclined.
Proof.
  induction 1 as [slots calls Hc|slots calls i obj e Hc Hf
                 |slots calls i obj f e Hc Hf Hr
                 |slots calls i obj f r Hc Hf Hr Hne
                 |slots calls i obj f x calls' Hc Hf Hr Hrest IH];
    intros Hlook Hdecl; [done|..].
  - destruct (Hlook _ _ (choose_override_lookup _ _ _ Hc)). congruence.
  - assert (call_of (event i obj f) = PyOk Py_NotImplemented)
      by (apply (Hdecl (length calls)); [by apply list_lookup_middle|lia]).
    congruence.
  - assert (call_of (event i obj f) = PyOk Py_NotImplemented)
      by (apply (Hdecl (length calls)); [by apply list_lookup_middle|lia]).
    congruence.
  - apply IH.
    + intros k o [_ Hk]%cleared_filled. by eapply Hlook.
    + intros n ev Hn Hle. apply (Hdecl n); [done|].
      rewrite length_app in Hle. lia.
Qed.
End Rounds.
End MoreFacts.

(** ** The slots at discovery *)

Section Initial.
Context {PyObject : Type} {host : Host PyObject}.
Implicit Types (items cands : list PyObject).

Lemma fmap_Some_lookup cands k (o : option PyObject) :
  (Some <$> cands) !! k = Some o → ∃ obj, o = Some obj ∧ cands !! k = Some obj.
Proof.
  rewrite list_lookup_fmap. destruct (cands !! k) as [obj|]; [|done].
  intros [= <-]. by exists obj.
Qed.

Lemma initial_slots_of_cands cands : slots_of_cands cands (Some <$> cands).
Proof.
  split; [by rewrite length_fmap|].
  intros k obj (o & [= <-] & ?)%fmap_Some_lookup. done.
Qed.

Lemma initial_cleared_were_called pos cands :
  cleared_were_called pos (Some <$> cands) ([] : list (CallEvent PyObject)).
Proof. by intros k p (o & ? & _)%fmap_Some_lookup. Qed.

(** A call recorded by the rounds that start at discovery is the call of a
    candidate of [args] at its index. *)
Lemma discovered_event ufunc method normal_args kw items x calls ev :
  Rounds ufunc method normal_args kw (find_overrides 0 items).2
    (find_overrides 0 items).1 [] x calls →
  ev ∈ calls →
  ∃ n, items !! n = Some (ev_obj ev)
    ∧ has_override (ev_obj ev) = true
    ∧ PyObject_GetAttrString (ev_obj ev) "__numpy_ufunc__"
        = PyOk (ev_callable ev)
    ∧ ev_args ev = BuildValue ufunc method (Z.of_nat n) normal_args
    ∧ ev_kwds ev = kw.
Proof.
  intros Hr [[]%elem_of_nil|(i & obj & f & Hi & Hf & ->)]%(rounds_events _ _ _ _ _ _ _ _ _ _ Hr).
  destruct (pos_of_slot (find_overrides 0 items).2 _ _ _
              (eq_sym (find_overrides_length 0 items)) Hi) as [p Hp].
  destruct (find_overrides_pos _ _ _ _ Hp) as (o & Ho & Hle & Hit & Hov).
  rewrite Hi in Ho. injection Ho as <-.
  exists (Z.to_nat (p - 0)). unfold event_of. simpl. rewrite Hp. simpl.
  repeat split; try done. do 2 f_equal. lia.
Qed.

(** The calls of a run of the function are calls of candidates of [args],
    each at its index, with the first [nin] operands and the normalized
    keywords. *)
Lemma CheckOverride_calls ufunc method items kwds result nin h r ev :
  PyUFunc_CheckOverride ufunc method (ArgsTuple items) kwds result nin h
    = Some r →
  ev ∈ out_calls r →
  ∃ n, items !! n = Some (ev_obj ev)
    ∧ has_override (ev_obj ev) = true
    ∧ PyObject_GetAttrString (ev_obj ev) "__numpy_ufunc__"
        = PyOk (ev_callable ev)
    ∧ ev_args ev
        = BuildValue ufunc method (Z.of_nat n) (PyTuple_GetSlice items 0 nin)
    ∧ ev_kwds ev = normal_kwds_of items kwds nin h.
Proof.
  destruct (CheckOverride_cases ufunc method (ArgsTuple items) kwds result nin h)
    as (x & calls & -> & Hcase).
  intros [= <-]. cbn [out_calls]. intros Hin.
  repeat case_bool_decide;
    try (destruct Hcase as [_ ->]; by apply elem_of_nil in Hin).
  by eapply discovered_event.
Qed.
End Initial.

(** ** The properties of the dispatch *)

(** Precedence among the calls of a run, from a property of the choice of a
    round: [cond] on positions of [args] has to give [ok] on the slots. *)
Lemma CheckOverride_precedence {PyObject : Type} {host : Host PyObject}
    (ok cond : nat → nat → Prop) ufunc method (items : list PyObject)
    kwds result nin h :
  (∀ slots i obj k sub,
     choose_override 0 slots = Some (i, obj) →
     slots !! k = Some (Some sub) → ok i k → ¬ strict_instance sub obj) →
  (∀ i k p s,
     (find_overrides 0 items).2 !! i = Some (Z.of_nat p) →
     (find_overrides 0 items).2 !! k = Some (Z.of_nat s) →
     cond s p → ok i k) →
  precedence_where ufunc method (ArgsTuple items) kwds result nin h cond.
Proof.
  intros Hsel Hcond.
  destruct (CheckOverride_cases ufunc method (ArgsTuple items) kwds result nin h)
    as (x & calls & Hrun & Hcase).
  intros r items' [= <-] Hr. rewrite Hrun in Hr. injection Hr as <-.
  cbn [out_calls]. intros s p sub sup Hsp Hs Hp Hos Hop Hstrict n ev Hn Hpos.
  repeat case_bool_decide; try (destruct Hcase as [_ ->]; done).
  pose proof (list_elem_of_lookup_2 _ _ _ Hn) as Hin.
  destruct (discovered_event _ _ _ _ _ _ _ _ Hcase Hin)
    as (p' & Hp' & _ & _ & Hargs & _).
  unfold ev_pos in Hpos. rewrite Hargs in Hpos. simpl in Hpos.
  assert (p' = p) as -> by lia.
  assert (ev_obj ev = sup) as Hobj by congruence.
  destruct (find_overrides_complete 0 _ _ _ Hs Hos) as (k & Hk & Hkp).
  replace (0 + Z.of_nat s)%Z with (Z.of_nat s) in Hkp by lia.
  pose proof Hkp as Hkp'.
  rewrite find_overrides_filled in Hk, Hcase.
  apply fmap_Some_lookup in Hk as (o & [= <-] & Hk).
  eapply (rounds_order _ _ _ _ _ ok Hsel); eauto.
  - by rewrite <-find_overrides_length, find_overrides_filled.
  - apply initial_slots_of_cands.
  - apply initial_cleared_were_called.
  - simpl. lia.
  - intros j Hj. unfold ev_pos in Hj. rewrite Hargs in Hj. simpl in Hj.
    by eapply Hcond.
  - by rewrite Hobj.
Qed.

(** C1 (as amended).  Subclasses before superclasses.  Let [sub] and [sup] be
    candidates of [args] such that [sub] is an instance of the type of [sup]
    and of another type.  When [sub] stands to the right of [sup], a call of
    the override of [sup] is preceded by a call of the override of [sub].
    The same holds wherever the two stand when the test of lines 141-143 is
    transitive on operands, as class inheritance makes it, and the host
    answers no to an instance test on [NULL]. *)
Theorem C1_subclass_before_superclass {PyObject : Type} {host : Host PyObject}
    ufunc method (items : list PyObject) kwds result nin h :
  is_Some (PyUFunc_CheckOverride ufunc method (ArgsTuple items) kwds result nin h)
  ∧ precedence_where ufunc method (ArgsTuple items) kwds result nin h
      (λ s p, p < s)
  ∧ ((∀ a b c : PyObject,
        strict_instance a b → strict_instance b c → strict_instance a c) →
     (∀ t, PyObject_IsInstance None t = 0%Z) →
     subclass_precedence ufunc method (ArgsTuple items) kwds result nin h).
Proof.
  split; [|split].
  - destruct (CheckOverride_cases ufunc method (ArgsTuple items) kwds result nin h)
      as (x & calls & Hrun & _).
    by eexists.
  - apply (CheckOverride_precedence (λ i k, i < k)).
    + intros slots i obj k sub Hc Hk Hik. by eapply chosen_no_subtype_right.
    + intros i k p s Hi Hk Hps.
      destruct (Nat.lt_total i k) as [Hlt|[->|Hlt]]; [done| |].
      * rewrite Hi in Hk. injection Hk as Hk. lia.
      * pose proof (find_overrides_increasing _ _ _ _ _ _ Hk Hi Hlt). lia.
  - intros Htrans Hnull. apply (CheckOverride_precedence (λ _ _, True)); [|done].
    intros slots i obj k sub Hc Hk _.
    by eapply chosen_is_most_specific.
Qed.

(** In the chain hierarchy of the example host, the test of lines 141-143
    says that the first operand is an instance of a class of greater number
    than the class of the second. *)
Lemma chain_strict_instance behave null (a b : Demo.obj) :
  strict_instance (host := Demo.host Demo.chain behave null) a b ↔
  ∃ c n, a = Demo.inst c n
    ∧ match b with Demo.inst c' _ => c' < c | _ => 0 < c end.
Proof.
  unfold strict_instance. simpl. split.
  - intros [Hty Hinst]. destruct a; try done. exists c, n. split; [done|].
    destruct b as [| | | | |c' ?| | | |]; simpl in *; unfold Demo.chain in *;
      try case_bool_decide; try done;
      match goal with
      | |- ?x < c => assert (c ≠ x) by (intros ->; done); lia
      end.
  - intros (c & n & -> & Hb). unfold Demo.chain.
    destruct b; simpl; (split; [intros [= ?]; lia|]);
      rewrite ?bool_decide_eq_true_2 by lia; done.
Qed.

Lemma chain_transitive behave null (a b c : Demo.obj) :
  strict_instance (host := Demo.host Demo.chain behave null) a b →
  strict_instance (host := Demo.host Demo.chain behave null) b c →
  strict_instance (host := Demo.host Demo.chain behave null) a c.
Proof.
  rewrite !chain_strict_instance.
  intros (ca & na & -> & Hb) (cb & nb & -> & Hc).
  exists ca, na. split; [done|]. destruct c; lia.
Qed.

(** C1, an instance: a subclass instance at position 2 and a superclass
    instance at position 0, in a hierarchy that is a chain. *)
Lemma C1_subclass_before_superclass_witness :
  subclass_precedence (host := Demo.host Demo.chain Demo.decline 0)
    Demo.add "__call__"
    (ArgsTuple [Demo.inst 1 0; Demo.ndarray 0; Demo.inst 2 1]) KwNULL None 2 ∅.
Proof.
  apply (C1_subclass_before_superclass
           (host := Demo.host Demo.chain Demo.decline 0)).
  - apply chain_transitive.
  - reflexivity.
Defined.

(** C1 as it is written fails where the instance test is not that of a class
    hierarchy: two classes whose instance checks each accept the instances of
    the other.  The operand at position 0 is then a strict instance of the
    type of the operand at position 1, and yet the override of the latter is
    the first, and the only one, to be called. *)
Lemma C1_counterexample :
  ¬ subclass_precedence (host := Demo.host Demo.mutual Demo.accept 0)
      Demo.add "__call__" (ArgsTuple [Demo.inst 1 0; Demo.inst 2 0])
      KwNULL None 2 ∅.
Proof.
  intros Hc.
  assert (Demo.run (Demo.host Demo.mutual Demo.accept 0)
            [Demo.inst 1 0; Demo.inst 2 0] KwNULL 2 ∅
          = Some (Done (Return0 (Some (Demo.value 0)))
                    [Called (Demo.inst 2 0) (Demo.method 2 0)
                       (BuildValue Demo.add "__call__" 1
                          [Demo.inst 1 0; Demo.inst 2 0]) ∅] ∅)) as Hrun
    by (vm_compute; reflexivity).
  assert (strict_instance (host := Demo.host Demo.mutual Demo.accept 0)
            (Demo.inst 1 0) (Demo.inst 2 0)) as Hstrict
    by (split; simpl; discriminate).
  destruct (Hc _ _ eq_refl Hrun 0 1 _ _ I eq_refl eq_refl eq_refl eq_refl Hstrict
              0 _ eq_refl eq_refl)
    as (m & _ & Hm & _).
  lia.
Qed.

(** C2, at an input on which the code departs from it.  The candidates are a
    superclass instance at position 0 and a subclass instance at position 1,
    and both decline.  In the second round the slot of the subclass instance
    has been cleared, and the loop of lines 139-147 still reads it: what the
    round chooses is decided by the host's answer to an instance test on
    [NULL].  With the answer 0 the superclass instance is called; with -1,
    the error code, its slot is passed over and its override is never
    called. *)
Theorem C2_cleared_slot_is_compared :
  choose_override (host := Demo.host Demo.chain Demo.decline 0) 0
    [Some (Demo.inst 1 0); None] = Some (0, Demo.inst 1 0)
  ∧ choose_override (host := Demo.host Demo.chain Demo.decline (-1)) 0
      [Some (Demo.inst 1 0); None] = None
  ∧ (fmap ev_pos ∘ out_calls) <$>
      Demo.run (Demo.host Demo.chain Demo.decline 0)
        [Demo.inst 1 0; Demo.inst 2 0] KwNULL 2 ∅ = Some [1%Z; 0%Z]
  ∧ (fmap ev_pos ∘ out_calls) <$>
      Demo.run (Demo.host Demo.chain Demo.decline (-1))
        [Demo.inst 1 0; Demo.inst 2 0] KwNULL 2 ∅ = Some [1%Z].
Proof. repeat split; vm_compute; reflexivity. Qed.

(** C3, at an input on which the code departs from it.  The operands are an
    array, a superclass instance at position 1 and a subclass instance at
    position 2, and both overrides decline.  The override at position 2 is
    called first and its slot is cleared.  Whatever operand [obj] the slot
    before a cleared slot holds, the round then applies the test of lines
    141-143 to the cleared slot: its choice, and with it the way to the type
    error of line 159, is decided by the host's answer to an instance test
    on [NULL].  A host that answers 0 calls the override at position 1 and
    raises the type error after it; a host that answers -1 raises it without
    that call. *)
Theorem C3_type_error_through_cleared_slot :
  (∀ (PyObject : Type) (host : Host PyObject) (obj : PyObject),
     choose_override 0 [Some obj; None] =
       if is_subtype_instance None obj then None else Some (0, obj))
  ∧ (λ r, (out_exit r, ev_pos <$> out_calls r)) <$>
      Demo.run (Demo.host Demo.chain Demo.decline 0)
        [Demo.ndarray 0; Demo.inst 1 0; Demo.inst 2 1] KwNULL 2 ∅
    = Some (Return1 None AllDeclined, [2%Z; 1%Z])
  ∧ (λ r, (out_exit r, ev_pos <$> out_calls r)) <$>
      Demo.run (Demo.host Demo.chain Demo.decline (-1))
        [Demo.ndarray 0; Demo.inst 1 0; Demo.inst 2 1] KwNULL 2 ∅
    = Some (Return1 None AllDeclined, [2%Z]).
Proof.
  split; [|split].
  - intros PyObject host obj. simpl.
    by destruct (is_subtype_instance None obj).
  - vm_compute. reflexivity.
  - vm_compute. reflexivity.
Qed.

(** C4.  Every call of an override is the call of the attribute of a
    candidate of [args], with the arguments [(ufunc, method, n, normal_args)]
    where [n] is the index of the candidate in [args] and [normal_args] the
    first [nin] operands, and with the normalized keywords.  And when [args]
    has one candidate and the call of its override returns a value that is
    not [Py_NotImplemented], this value is the result and the override has
    been called once. *)
Theorem C4_call_arguments_and_single_candidate
    {PyObject : Type} {host : Host PyObject}
    ufunc method (items : list PyObject) kwds result nin h :
  ∃ r,
    PyUFunc_CheckOverride ufunc method (ArgsTuple items) kwds result nin h = Some r
    ∧ (∀ ev, ev ∈ out_calls r →
         ∃ n, items !! n = Some (ev_obj ev)
           ∧ has_override (ev_obj ev) = true
           ∧ PyObject_GetAttrString (ev_obj ev) "__numpy_ufunc__"
               = PyOk (ev_callable ev)
           ∧ ev_args ev
               = BuildValue ufunc method (Z.of_nat n) (take (Z.to_nat nin) items)
           ∧ ev_kwds ev = normal_kwds_of items kwds nin h)
    ∧ (∀ pre obj post v,
         items = pre ++ obj :: post →
         (Z.of_nat (length items) ≤ NPY_MAXARGS)%Z →
         (∀ o, o ∈ pre ++ post → has_override o = false) →
         has_override obj = true →
         invoke ufunc method (Z.of_nat (length pre)) (take (Z.to_nat nin) items)
           (normal_kwds_of items kwds nin h) obj = PyOk v →
         v ≠ Py_NotImplemented →
         outcome (out_exit r) = Result v
         ∧ ∃ f, out_calls r =
             [Called obj f
                (BuildValue ufunc method (Z.of_nat (length pre))
                   (take (Z.to_nat nin) items))
                (normal_kwds_of items kwds nin h)]).
Proof.
  destruct (CheckOverride_cases ufunc method (ArgsTuple items) kwds result nin h)
    as (x & calls & Hrun & Hcase).
  exists (Done x calls h). split; [done|]. cbn [out_exit out_calls].
  rewrite PyTuple_GetSlice_prefix in Hcase. split.
  - intros ev Hin. rewrite <-PyTuple_GetSlice_prefix.
    by apply (CheckOverride_calls _ _ _ _ _ _ _ _ _ Hrun).
  - intros pre obj post v -> Hlen Hnone Hobj Hinv Hv.
    rewrite bool_decide_eq_false_2 in Hcase by lia.
    rewrite (find_overrides_single pre obj post Hnone Hobj) in Hcase.
    cbn [fst snd] in Hcase.
    rewrite bool_decide_eq_false_2 in Hcase by done.
    unfold invoke in Hinv.
    destruct (PyObject_GetAttrString obj "__numpy_ufunc__") as [e|f] eqn:Hf;
      [done|].
    pose proof (Rounds_accepted ufunc method
                  (take (Z.to_nat nin) (pre ++ obj :: post))
                  (normal_kwds_of (pre ++ obj :: post) kwds nin h)
                  [Z.of_nat (length pre)] [Some obj] [] 0 obj f v
                  eq_refl Hf Hinv Hv) as Hexp.
    destruct (Rounds_deterministic _ _ _ _ _ _ _ _ _ _ _ Hcase Hexp) as [-> ->].
    split; [done|]. by exists f.
Qed.

(** C4, an instance: one candidate at position 1, which accepts. *)
Lemma C4_call_arguments_and_single_candidate_witness :
  ∃ r, Demo.run (Demo.host Demo.chain Demo.accept 0)
         [Demo.ndarray 0; Demo.inst 1 7; Demo.scalar 3] KwNULL 2 ∅ = Some r
    ∧ outcome (out_exit r) = Result (Demo.value 7)
    ∧ ∃ f, out_calls r =
        [Called (Demo.inst 1 7) f
           (BuildValue Demo.add "__call__" 1 [Demo.ndarray 0; Demo.inst 1 7])
           (normal_kwds_of [Demo.ndarray 0; Demo.inst 1 7; Demo.scalar 3]
              KwNULL 2 ∅)].
Proof.
  destruct (C4_call_arguments_and_single_candidate
              (host := Demo.host Demo.chain Demo.accept 0)
              Demo.add "__call__" [Demo.ndarray 0; Demo.inst 1 7; Demo.scalar 3]
              KwNULL None 2 ∅)
    as (r & Hrun & _ & Hsingle).
  exists r. split; [exact Hrun|].
  apply (Hsingle [Demo.ndarray 0] (Demo.inst 1 7) [Demo.scalar 3] (Demo.value 7)).
  - reflexivity.
  - simpl. lia.
  - intros o Hin. simpl in Hin.
    apply elem_of_cons in Hin as [->|Hin]; [reflexivity|].
    apply elem_of_cons in Hin as [->|Hin]; [reflexivity|].
    by apply elem_of_nil in Hin.
  - reflexivity.
  - reflexivity.
  - discriminate.
Defined.

(** C5 (as amended).  The function reports invalid usage, with [*result]
    untouched and no override called, when [args] is not a tuple or has more
    than [NPY_MAXARGS] elements; and in no other case, whatever [nin] is:
    [nin] is not checked. *)
Theorem C5_invalid_usage {PyObject : Type} {host : Host PyObject}
    ufunc method (args : ArgsObject PyObject) kwds result nin h :
  ∃ r,
    PyUFunc_CheckOverride ufunc method args kwds result nin h = Some r
    ∧ (bad_args args →
         ∃ e, out_exit r = Return1 result e ∧ InvalidUsage e ∧ out_calls r = [])
    ∧ (¬ bad_args args →
         ∀ e, outcome (out_exit r) = Failure e → ¬ InvalidUsage e).
Proof.
  destruct (CheckOverride_cases ufunc method args kwds result nin h)
    as (x & calls & Hrun & Hcase).
  exists (Done x calls h). split; [done|]. cbn [out_exit out_calls].
  destruct args as [items|o]; simpl.
  - case_bool_decide as Hmax.
    + destruct Hcase as [-> ->]. split; [|intros; lia].
      intros _. eexists. split; [done|]. split; [by right|done].
    + split; [intros; lia|]. intros _ e Hout.
      case_bool_decide.
      * destruct Hcase as [-> _]. done.
      * destruct x as [[v|]|res e']; simpl in Hout; try done.
        injection Hout as ->.
        destruct (rounds_errors _ _ _ _ _ _ _ _ _ _ _ Hcase eq_refl)
          as [->|[exc ->]]; by intros [?|?].
  - destruct Hcase as [-> ->]. split; [|done].
    intros _. eexists. split; [done|]. split; [by left|done].
Qed.

(** C5, an instance: something that is not a tuple. *)
Lemma C5_invalid_usage_witness :
  ∃ r, PyUFunc_CheckOverride (host := Demo.host Demo.chain Demo.accept 0)
         Demo.add "__call__" (ArgsOther (Demo.value 0)) KwNULL
         (Some (Demo.value 9)) 2 ∅ = Some r
    ∧ ∃ e, out_exit r = Return1 (Some (Demo.value 9)) e ∧ InvalidUsage e
      ∧ out_calls r = [].
Proof.
  destruct (C5_invalid_usage (host := Demo.host Demo.chain Demo.accept 0)
              Demo.add "__call__" (ArgsOther (Demo.value 0)) KwNULL
              (Some (Demo.value 9)) 2 ∅)
    as (r & Hrun & Hbad & _).
  exists r. split; [exact Hrun|]. apply Hbad. exact I.
Defined.

(** C5 as it is written fails: with two arrays and [nin = 5], which is not
    between 0 and the number of operands, the function returns 0 with
    [*result = NULL]. *)
Lemma C5_counterexample :
  ¬ violations_reported (host := Demo.host Demo.chain Demo.accept 0)
      Demo.add "__call__" (ArgsTuple [Demo.ndarray 0; Demo.ndarray 1])
      KwNULL None 5 ∅.
Proof.
  intros Hc. destruct Hc as (r & e & Hrun & Hout & _).
  - intros (items & [= <-] & _ & Hnin). simpl in Hnin. lia.
  - vm_compute in Hrun. injection Hrun as <-. discriminate Hout.
Qed.

(** C6.  When [args] has a candidate and more than [nin] operands, the out
    entry of the normalized keywords is the last operand itself when there is
    one operand more, and otherwise the tuple of the operands from [nin] on,
    in order; and these keywords are those of every call. *)
Theorem C6_out_entry {PyObject : Type} {host : Host PyObject}
    ufunc method (items : list PyObject) kwds result nin h :
  (∃ obj, obj ∈ items ∧ has_override obj = true) →
  (nin < Z.of_nat (length items))%Z →
  (∃ r,
     PyUFunc_CheckOverride ufunc method (ArgsTuple items) kwds result nin h
       = Some r
     ∧ ∀ ev, ev ∈ out_calls r → ev_kwds ev = normal_kwds_of items kwds nin h)
  ∧ ((Z.of_nat (length items) - nin = 1)%Z →
     ∃ obj, (0 ≤ nin)%Z ∧ items !! Z.to_nat nin = Some obj
       ∧ normal_kwds_of items kwds nin h !! "out" = Some (VObj obj))
  ∧ ((Z.of_nat (length items) - nin ≠ 1)%Z →
     normal_kwds_of items kwds nin h !! "out"
       = Some (VTuple (drop (Z.to_nat nin) items))).
Proof.
  intros (c & Hin & _) Hlt.
  assert (0 < length items) as Hpos.
  { destruct items; [by apply elem_of_nil in Hin|simpl; lia]. }
  rewrite normal_kwds_of_eq. cbn zeta.
  rewrite bool_decide_eq_true_2 by lia.
  split; [|split].
  - destruct (CheckOverride_cases ufunc method (ArgsTuple items) kwds result nin h)
      as (x & calls & Hrun & _).
    eexists. split; [exact Hrun|]. intros ev Hev.
    destruct (CheckOverride_calls _ _ _ _ _ _ _ _ _ Hrun Hev)
      as (_ & _ & _ & _ & _ & ->).
    rewrite normal_kwds_of_eq. cbn zeta. by rewrite bool_decide_eq_true_2 by lia.
  - intros Hone. rewrite bool_decide_eq_true_2 by done.
    replace (Z.to_nat (Z.of_nat (length items) - 1)) with (Z.to_nat nin) by lia.
    destruct (lookup_lt_is_Some_2 items (Z.to_nat nin)) as [obj Hobj]; [lia|].
    exists obj. rewrite Hobj. split; [lia|]. split; [done|].
    apply lookup_insert_eq.
  - intros Hmore. rewrite bool_decide_eq_false_2 by done.
    rewrite PyTuple_GetSlice_suffix by done. apply lookup_insert_eq.
Qed.

(** C6, two instances with [nin = 2]: three operands, and four. *)
Lemma C6_out_entry_witness :
  normal_kwds_of [Demo.inst 1 0; Demo.ndarray 1; Demo.ndarray 2] KwNULL 2 ∅
    !! "out" = Some (VObj (Demo.ndarray 2))
  ∧ normal_kwds_of
      [Demo.inst 1 0; Demo.ndarray 1; Demo.ndarray 2; Demo.ndarray 3] KwNULL 2 ∅
      !! "out" = Some (VTuple [Demo.ndarray 2; Demo.ndarray 3]).
Proof.
  split.
  - destruct (C6_out_entry (host := Demo.host Demo.chain Demo.accept 0)
                Demo.add "__call__"
                [Demo.inst 1 0; Demo.ndarray 1; Demo.ndarray 2] KwNULL None 2 ∅)
      as (_ & Hone & _).
    + exists (Demo.inst 1 0). split; [left|reflexivity].
    + simpl. lia.
    + destruct Hone as (obj & _ & Hobj & Hout); [simpl; lia|].
      injection Hobj as <-. exact Hout.
  - destruct (C6_out_entry (host := Demo.host Demo.chain Demo.accept 0)
                Demo.add "__call__"
                [Demo.inst 1 0; Demo.ndarray 1; Demo.ndarray 2; Demo.ndarray 3]
                KwNULL None 2 ∅)
      as (_ & _ & Hmore).
    + exists (Demo.inst 1 0). split; [left|reflexivity].
    + simpl. lia.
    + apply Hmore. simpl. lia.
Defined.

(** C7.  In one run of the function no two calls are made at the same
    position of [args]: however many overrides decline, the override of an
    operand is not called again; and when no object stands at two positions
    as a candidate, no two calls are calls of the same object.  And when the candidates are [a], then [b]
    to its right, [b] is not a strict instance of the type of [a], the
    override of [a] declines and that of [b] returns a value, then the calls
    are that of [a] followed by that of [b], and the value is the result. *)
Theorem C7_called_once_and_decline_chaining
    {PyObject : Type} {host : Host PyObject}
    ufunc method (items : list PyObject) kwds result nin h :
  ∃ r,
    PyUFunc_CheckOverride ufunc method (ArgsTuple items) kwds result nin h = Some r
    ∧ NoDup (ev_pos <$> out_calls r)
    ∧ ((∀ n1 n2 obj, items !! n1 = Some obj → items !! n2 = Some obj →
          has_override obj = true → n1 = n2) →
       NoDup (ev_obj <$> out_calls r))
    ∧ (∀ pre a mid b post v,
         items = pre ++ a :: mid ++ b :: post →
         (Z.of_nat (length items) ≤ NPY_MAXARGS)%Z →
         (∀ o, o ∈ pre ++ mid ++ post → has_override o = false) →
         has_override a = true → has_override b = true →
         ¬ strict_instance b a →
         invoke ufunc method (Z.of_nat (length pre))
           (PyTuple_GetSlice items 0 nin) (normal_kwds_of items kwds nin h) a
           = PyOk Py_NotImplemented →
         invoke ufunc method (Z.of_nat (length pre + S (length mid)))
           (PyTuple_GetSlice items 0 nin) (normal_kwds_of items kwds nin h) b
           = PyOk v →
         v ≠ Py_NotImplemented →
         outcome (out_exit r) = Result v
         ∧ ∃ fa fb, out_calls r =
             [Called a fa
                (BuildValue ufunc method (Z.of_nat (length pre))
                   (PyTuple_GetSlice items 0 nin))
                (normal_kwds_of items kwds nin h);
              Called b fb
                (BuildValue ufunc method
                   (Z.of_nat (length pre + S (length mid)))
                   (PyTuple_GetSlice items 0 nin))
                (normal_kwds_of items kwds nin h)]).
Proof.
  destruct (CheckOverride_cases ufunc method (ArgsTuple items) kwds result nin h)
    as (x & calls & Hrun & Hcase).
  exists (Done x calls h). split; [done|]. cbn [out_exit out_calls].
  assert (NoDup (ev_pos <$> calls)) as Hpos.
  { repeat case_bool_decide;
      try (destruct Hcase as [_ ->]; apply NoDup_nil_2).
    eapply rounds_nodup; [|exact Hcase|..].
    + apply NoDup_alt. intros k1 k2 p. apply find_overrides_inj.
    + by rewrite find_overrides_length.
    + apply NoDup_nil_2.
    + intros i obj p _ _. apply not_elem_of_nil. }
  split; [done|]. split.
  - intros Hdistinct. apply NoDup_alt. intros i j obj Hi Hj.
    rewrite list_lookup_fmap in Hi, Hj.
    destruct (calls !! i) as [ev1|] eqn:E1; [|done].
    destruct (calls !! j) as [ev2|] eqn:E2; [|done].
    simpl in Hi, Hj.
    destruct (CheckOverride_calls _ _ _ _ _ _ _ _ ev1 Hrun)
      as (n1 & Hn1 & Hov & _ & Ha1 & _); [by eapply list_elem_of_lookup_2|].
    destruct (CheckOverride_calls _ _ _ _ _ _ _ _ ev2 Hrun)
      as (n2 & Hn2 & _ & _ & Ha2 & _); [by eapply list_elem_of_lookup_2|].
    assert (n1 = n2) as <-.
    { apply (Hdistinct n1 n2 (ev_obj ev1)); [done|congruence|done]. }
    eapply (NoDup_lookup _ i j (Z.of_nat n1) Hpos);
      rewrite list_lookup_fmap; [rewrite E1|rewrite E2];
      unfold ev_pos; simpl; [by rewrite Ha1|by rewrite Ha2].
  - intros pre a mid b post v -> Hlen Hnone Ha Hb Hrel Hda Hab Hv.
    rewrite bool_decide_eq_false_2 in Hcase by lia.
    rewrite (find_overrides_pair pre a mid b post Hnone Ha Hb) in Hcase.
    cbn [fst snd] in Hcase.
    rewrite bool_decide_eq_false_2 in Hcase by done.
    unfold invoke in Hda, Hab.
    destruct (PyObject_GetAttrString a "__numpy_ufunc__") as [e|fa] eqn:Hfa;
      [done|].
    destruct (PyObject_GetAttrString b "__numpy_ufunc__") as [e|fb] eqn:Hfb;
      [done|].
    assert (choose_override 0 [Some a; Some b] = Some (0, a)) as Hfirst.
    { simpl. destruct (is_subtype_instance (Some b) a) eqn:E; [|done].
      by apply is_subtype_instance_Some in E. }
    set (normal_args := PyTuple_GetSlice (pre ++ a :: mid ++ b :: post) 0 nin) in *.
    set (kw := normal_kwds_of (pre ++ a :: mid ++ b :: post) kwds nin h) in *.
    set (pos := [Z.of_nat (length pre); Z.of_nat (length pre + S (length mid))])
      in *.
    pose proof (Rounds_accepted ufunc method normal_args kw pos [None; Some b]
                  ([] ++ [event_of ufunc method normal_args kw pos 0 a fa])
                  1 b fb v eq_refl Hfb Hab Hv) as Hsecond.
    pose proof (Rounds_declined ufunc method normal_args kw pos [Some a; Some b]
                  [] 0 a fa _ _ Hfirst Hfa Hda Hsecond) as Hexp.
    destruct (Rounds_deterministic _ _ _ _ _ _ _ _ _ _ _ Hcase Hexp) as [-> ->].
    split; [done|]. by exists fa, fb.
Qed.

(** C7, an instance: a candidate that declines at position 0, an array, and
    a candidate of an unrelated class that accepts at position 2. *)
Lemma C7_called_once_and_decline_chaining_witness :
  ∃ r, Demo.run (Demo.host Demo.flat Demo.mixed 0)
         [Demo.inst 1 0; Demo.ndarray 0; Demo.inst 3 8] KwNULL 2 ∅ = Some r
    ∧ outcome (out_exit r) = Result (Demo.value 8)
    ∧ ev_pos <$> out_calls r = [0%Z; 2%Z].
Proof.
  destruct (C7_called_once_and_decline_chaining
              (host := Demo.host Demo.flat Demo.mixed 0)
              Demo.add "__call__" [Demo.inst 1 0; Demo.ndarray 0; Demo.inst 3 8]
              KwNULL None 2 ∅)
    as (r & Hrun & _ & _ & Hchain).
  exists r. split; [exact Hrun|].
  destruct (Hchain [] (Demo.inst 1 0) [Demo.ndarray 0] (Demo.inst 3 8) []
              (Demo.value 8)) as (Hout & fa & fb & Hcalls).
  - reflexivity.
  - simpl. lia.
  - intros o Hin. simpl in Hin.
    apply elem_of_cons in Hin as [->|Hin]; [reflexivity|].
    by apply elem_of_nil in Hin.
  - reflexivity.
  - reflexivity.
  - intros [_ Hinst]. apply Hinst. reflexivity.
  - reflexivity.
  - reflexivity.
  - discriminate.
  - split; [exact Hout|]. rewrite Hcalls. reflexivity.
Defined.

(** C8.  When the call of an override raises, no call is made after it, and
    the function fails with the exception raised, [*result] being [NULL]. *)
Theorem C8_exception_ends_the_dispatch {PyObject : Type} {host : Host PyObject}
    ufunc method (args : ArgsObject PyObject) kwds result nin h :
  ∃ r,
    PyUFunc_CheckOverride ufunc method args kwds result nin h = Some r
    ∧ ∀ n ev exc,
        out_calls r !! n = Some ev → call_of ev = PyNULL exc →
        S n = length (out_calls r)
        ∧ out_exit r = Return1 None (Raised exc)
        ∧ outcome (out_exit r) = Failure (Raised exc).
Proof.
  destruct (CheckOverride_cases ufunc method args kwds result nin h)
    as (x & calls & Hrun & Hcase).
  exists (Done x calls h). split; [done|]. cbn [out_exit out_calls].
  intros n ev exc Hn Hexc.
  destruct args as [items|o]; repeat case_bool_decide;
    try (destruct Hcase as [_ ->]; done).
  destruct (rounds_raise _ _ _ _ _ _ _ _ _ _ _ _ Hcase Hn (Nat.le_0_l _) Hexc)
    as [? ->].
  done.
Qed.

(** C8, an instance: the candidate tried first raises, and the other one,
    which would accept, is not called. *)
Lemma C8_exception_ends_the_dispatch_witness :
  ∃ r, Demo.run (Demo.host Demo.flat Demo.mixed 0)
         [Demo.inst 2 4; Demo.inst 3 8] KwNULL 2 ∅ = Some r
    ∧ length (out_calls r) = 1
    ∧ outcome (out_exit r) = Failure (Raised (Demo.exc 4)).
Proof.
  destruct (C8_exception_ends_the_dispatch
              (host := Demo.host Demo.flat Demo.mixed 0)
              Demo.add "__call__" (ArgsTuple [Demo.inst 2 4; Demo.inst 3 8])
              KwNULL None 2 ∅)
    as (r & Hrun & Hraise).
  exists r. split; [exact Hrun|].
  vm_compute in Hrun. injection Hrun as <-.
  destruct (Hraise 0 _ (Demo.exc 4) eq_refl eq_refl) as (Hlast & _ & Hout).
  split; [reflexivity|exact Hout].
Defined.

(** C9 (as amended).  When [kwds] is an exact dictionary, the keywords of
    every call contain each of its entries under a key other than out; and
    its out entry as well when [args] has no more than [nin] operands.  With
    more operands, the out entry of every call is the one of lines 99-109:
    the operand at [nin] itself when there is one operand more, and the tuple
    of the operands from [nin] on otherwise. *)
Theorem C9_keywords_copied {PyObject : Type} {host : Host PyObject}
    ufunc method (items : list PyObject) result nin h d m :
  h !! d = Some m →
  ∃ r,
    PyUFunc_CheckOverride ufunc method (ArgsTuple items) (KwDict d) result nin h
      = Some r
    ∧ (∀ ev key v,
         ev ∈ out_calls r → m !! key = Some v →
         key ≠ "out" ∨ (Z.of_nat (length items) ≤ nin)%Z →
         ev_kwds ev !! key = Some v)
    ∧ (∀ ev,
         ev ∈ out_calls r → (nin < Z.of_nat (length items))%Z →
         ((Z.of_nat (length items) - nin = 1)%Z →
          ∃ obj, items !! Z.to_nat nin = Some obj
            ∧ ev_kwds ev !! "out" = Some (VObj obj))
         ∧ ((Z.of_nat (length items) - nin ≠ 1)%Z →
            ev_kwds ev !! "out" = Some (VTuple (drop (Z.to_nat nin) items)))).
Proof.
  intros Hd.
  destruct (CheckOverride_cases ufunc method (ArgsTuple items) (KwDict d)
              result nin h) as (x & calls & Hrun & _).
  eexists. split; [exact Hrun|]. split.
  - intros ev key v Hev Hkey Hcond.
    destruct (CheckOverride_calls _ _ _ _ _ _ _ _ _ Hrun Hev)
      as (_ & _ & _ & _ & _ & ->).
    rewrite normal_kwds_of_eq. cbn zeta. unfold kwds_content. rewrite Hd. simpl.
    destruct Hcond as [Hne|Hle].
    + repeat case_bool_decide; try destruct (items !! _);
        rewrite ?lookup_insert_ne by done; done.
    + by rewrite bool_decide_eq_false_2 by lia.
  - intros ev Hev Hlt.
    destruct (CheckOverride_calls _ _ _ _ _ _ _ _ _ Hrun Hev)
      as (n & Hn & _ & _ & _ & ->).
    apply lookup_lt_Some in Hn.
    rewrite normal_kwds_of_eq. cbn zeta. rewrite bool_decide_eq_true_2 by lia.
    split.
    + intros Hone. rewrite bool_decide_eq_true_2 by done.
      replace (Z.to_nat (Z.of_nat (length items) - 1)) with (Z.to_nat nin)
        by lia.
      destruct (lookup_lt_is_Some_2 items (Z.to_nat nin)) as [obj Hobj]; [lia|].
      exists obj. rewrite Hobj. split; [done|]. apply lookup_insert_eq.
    + intros Hmore. rewrite bool_decide_eq_false_2 by done.
      rewrite PyTuple_GetSlice_suffix by done. apply lookup_insert_eq.
Qed.

(** C9, an instance: an axis entry, with one operand beyond [nin]. *)
Lemma C9_keywords_copied_witness :
  ∃ r, Demo.run (Demo.host Demo.chain Demo.accept 0)
         [Demo.inst 1 0; Demo.ndarray 1; Demo.ndarray 2] (KwDict 1%positive) 2
         {[ 1%positive := {[ "axis" := VObj (Demo.value 7) ]} ]} = Some r
    ∧ ∀ ev, ev ∈ out_calls r →
        ev_kwds ev !! "axis" = Some (VObj (Demo.value 7)).
Proof.
  destruct (C9_keywords_copied (host := Demo.host Demo.chain Demo.accept 0)
              Demo.add "__call__"
              [Demo.inst 1 0; Demo.ndarray 1; Demo.ndarray 2] None 2
              {[ 1%positive := {[ "axis" := VObj (Demo.value 7) ]} ]}
              1%positive {[ "axis" := VObj (Demo.value 7) ]})
    as (r & Hrun & Hkw & _).
  { reflexivity. }
  exists r. split; [exact Hrun|]. intros ev Hev.
  apply (Hkw ev "axis" (VObj (Demo.value 7)) Hev).
  - reflexivity.
  - left. discriminate.
Defined.

(** C9 as it is written fails: the caller passes an out entry in [kwds] and
    one operand beyond [nin]; the override receives the operand under out,
    and the caller's entry is not among its keywords. *)
Lemma C9_counterexample :
  ¬ keywords_passed_on (host := Demo.host Demo.chain Demo.accept 0)
      Demo.add "__call__"
      (ArgsTuple [Demo.inst 1 0; Demo.ndarray 1; Demo.ndarray 2])
      (KwDict 1%positive) None 2
      {[ 1%positive := {[ "out" := VObj (Demo.value 7) ]} ]}.
Proof.
  intros Hc.
  destruct (CheckOverride_cases (host := Demo.host Demo.chain Demo.accept 0)
              Demo.add "__call__"
              (ArgsTuple [Demo.inst 1 0; Demo.ndarray 1; Demo.ndarray 2])
              (KwDict 1%positive) None 2
              {[ 1%positive := {[ "out" := VObj (Demo.value 7) ]} ]})
    as (x & calls & Hrun & _).
  pose proof (Hc _ 1%positive {[ "out" := VObj (Demo.value 7) ]}
                eq_refl eq_refl Hrun) as Hall.
  vm_compute in Hrun. injection Hrun as <- <-.
  specialize (Hall _ "out" (VObj (Demo.value 7)) (list_elem_of_here _ _) eq_refl).
  vm_compute in Hall. discriminate Hall.
Qed.

(** C10.  The function returns with the dictionary heap as it received it:
    the caller's [kwds], and every other dictionary, is as it was, on every
    path.  The normalized keywords are built in a dictionary that the
    caller's heap does not hold, and building them changes no dictionary
    that it holds; the operands [args] are only read. *)
Theorem C10_caller_heap_unchanged {PyObject : Type} {host : Host PyObject}
    ufunc method (args : ArgsObject PyObject) kwds result nin h :
  (∃ r,
     PyUFunc_CheckOverride ufunc method args kwds result nin h = Some r
     ∧ out_heap r = h)
  ∧ ∀ items : list PyObject,
      h !! (build_normal_kwds items kwds nin h).1 = None
      ∧ ∀ l, is_Some (h !! l) →
          (build_normal_kwds items kwds nin h).2 !! l = h !! l.
Proof.
  split.
  - destruct (CheckOverride_cases ufunc method args kwds result nin h)
      as (x & calls & Hrun & _).
    by eexists.
  - intros items. rewrite build_normal_kwds_loc. split; [apply fresh_unused|].
    intros l [m Hl]. apply build_normal_kwds_frame.
    intros ->. rewrite fresh_unused in Hl. done.
Qed.

(** C10, an instance: the caller's dictionary at location 1 keeps its single
    entry while the out entry is written. *)
Lemma C10_caller_heap_unchanged_witness :
  (build_normal_kwds [Demo.inst 1 0; Demo.ndarray 1; Demo.ndarray 2]
     (KwDict 1%positive) 2
     {[ 1%positive := {[ "axis" := VObj (Demo.value 7) ]} ]}).2 !! 1%positive
  = Some {[ "axis" := VObj (Demo.value 7) ]}.
Proof.
  destruct (C10_caller_heap_unchanged
              (host := Demo.host Demo.chain Demo.accept 0)
              Demo.add "__call__"
              (ArgsTuple [Demo.inst 1 0; Demo.ndarray 1; Demo.ndarray 2])
              (KwDict 1%positive) None 2
              {[ 1%positive := {[ "axis" := VObj (Demo.value 7) ]} ]})
    as [_ Hframe].
  destruct (Hframe [Demo.inst 1 0; Demo.ndarray 1; Demo.ndarray 2])
    as [_ Hsame].
  rewrite Hsame; [reflexivity|]. by eexists.
Defined.

(** ** Further properties of discovery and of the choice of a round *)

(** X1.  Discovery finds the candidates of [args] and nothing else: an
    operand at index [n] is a candidate exactly when some slot holds it with
    [n] as its position; and positions grow with the slot index, so that the
    slots are in the order of [args]. *)
Theorem X1_discovery_exact {PyObject : Type} {host : Host PyObject}
    (items : list PyObject) :
  (∀ n obj,
     items !! n = Some obj ∧ has_override obj = true ↔
     ∃ k, (find_overrides 0 items).1 !! k = Some (Some obj)
       ∧ (find_overrides 0 items).2 !! k = Some (Z.of_nat n))
  ∧ (∀ k1 k2 p1 p2,
       (find_overrides 0 items).2 !! k1 = Some p1 →
       (find_overrides 0 items).2 !! k2 = Some p2 →
       k1 < k2 → (p1 < p2)%Z).
Proof.
  split; [|apply find_overrides_increasing].
  intros n obj. split.
  - intros [Hn Hov]. destruct (find_overrides_complete 0 _ _ _ Hn Hov)
      as (k & Hk & Hp).
    exists k. split; [done|]. rewrite Hp. done.
  - intros (k & Hk & Hp).
    destruct (find_overrides_pos _ _ _ _ Hp) as (o & Ho & _ & Hit & Hov).
    rewrite Hk in Ho. injection Ho as <-.
    replace (Z.to_nat (Z.of_nat n - 0)) with n in Hit by lia. done.
Qed.

(** X2.  The arrays of lines 39-42 are not overrun: for a tuple that passes
    the check of line 54, the number of slots filled is at most
    [NPY_MAXARGS], both arrays are filled to the same length, no slot is
    left [NULL], and every position recorded is an index of [args]. *)
Theorem X2_discovery_within_bounds {PyObject : Type} {host : Host PyObject}
    (items : list PyObject) :
  (Z.of_nat (length items) ≤ NPY_MAXARGS)%Z →
  (Z.of_nat (length (find_overrides 0 items).1) ≤ NPY_MAXARGS)%Z
  ∧ length (find_overrides 0 items).2 = length (find_overrides 0 items).1
  ∧ (∀ k, (find_overrides 0 items).1 !! k ≠ Some None)
  ∧ (∀ k p, (find_overrides 0 items).2 !! k = Some p →
       (0 ≤ p < Z.of_nat (length items))%Z).
Proof.
  intros Hmax. split; [|split; [|split]].
  - rewrite find_overrides_filled, length_fmap.
    pose proof (length_filter (λ o, has_override o = true) items). lia.
  - by rewrite find_overrides_length.
  - intros k Hk. rewrite find_overrides_filled in Hk.
    by apply fmap_Some_lookup in Hk as (o & ? & _).
  - intros k p (o & _ & Hle & Hit & _)%find_overrides_pos.
    apply lookup_lt_Some in Hit. lia.
Qed.

(** X2, an instance. *)
Lemma X2_discovery_within_bounds_witness :
  (Z.of_nat (length (find_overrides (host := Demo.host Demo.chain Demo.accept 0)
                       0 [Demo.ndarray 0; Demo.inst 1 0; Demo.plain 3;
                          Demo.inst 2 1]).1) ≤ 32)%Z.
Proof.
  apply (X2_discovery_within_bounds
           (host := Demo.host Demo.chain Demo.accept 0)
           [Demo.ndarray 0; Demo.inst 1 0; Demo.plain 3; Demo.inst 2 1]).
  simpl. lia.
Defined.

Section Choice.
Context {PyObject : Type} {host : Host PyObject}.
Implicit Types (obj : PyObject) (slots : list (option PyObject)).

(** The converse of [choose_override_Some] and [choose_override_None]. *)
Lemma choose_override_intro i slots n obj :
slots !! n = Some (Some obj) →
subtype_to_right obj (drop (S n) slots) = false →
(∀ m o, m < n → slots !! m = Some (Some o) →
   subtype_to_right o (drop (S m) slots) = true) →
choose_override i slots = Some (i + n, obj).
Proof.
revert i n. induction slots as [|o slots IH]; intros i n; [done|].
destruct n as [|n]; simpl.
- intros [= ->] Hr _. change (subtype_to_right obj slots = false) in Hr.
  rewrite Hr. do 2 f_equal. lia.
- intros Hn Hr Hleft.
  replace (i + S n) with (S i + n) by lia.
  destruct o as [o|].
  + assert (subtype_to_right o slots = true) as ->
      by (apply (Hleft 0 o); [lia|done]).
    apply IH; [done..|].
    intros m o' Hm Ho'. apply (Hleft (S m) o'); [lia|done].
  + apply IH; [done..|].
    intros m o' Hm Ho'. apply (Hleft (S m) o'); [lia|done].
Qed.

Lemma choose_override_None_intro i slots :
(∀ m o, slots !! m = Some (Some o) →
   subtype_to_right o (drop (S m) slots) = true) →
choose_override i slots = None.
Proof.
revert i. induction slots as [|o slots IH]; intros i Hall; [done|].
simpl. destruct o as [o|].
- assert (subtype_to_right o slots = true) as -> by by apply (Hall 0 o).
  apply IH.
  intros m o' Hm. by apply (Hall (S m) o').
- apply IH. intros m o' Hm. by apply (Hall (S m) o').
Qed.
End Choice.

(** X3.  The choice of a round (lines 128-154) is the leftmost filled slot
    that no slot to its right disqualifies; and there is no choice exactly
    when every filled slot is disqualified by a slot to its right. *)
Theorem X3_choice_is_leftmost_eligible {PyObject : Type} {host : Host PyObject}
    (slots : list (option PyObject)) :
  (∀ i obj,
     choose_override 0 slots = Some (i, obj) ↔
     slots !! i = Some (Some obj)
     ∧ subtype_to_right obj (drop (S i) slots) = false
     ∧ ∀ m o, m < i → slots !! m = Some (Some o) →
         subtype_to_right o (drop (S m) slots) = true)
  ∧ (choose_override 0 slots = None ↔
     ∀ m o, slots !! m = Some (Some o) →
       subtype_to_right o (drop (S m) slots) = true).
Proof.
  split.
  - intros i obj. split.
    + by intros (n & -> & ?)%choose_override_Some.
    + intros (Hi & Hr & Hleft).
      by apply (choose_override_intro 0 slots i obj).
  - split.
    + intros Hn m o. by apply (choose_override_None 0).
    + apply choose_override_None_intro.
Qed.

(** ** Further properties of the calls and of the exit *)

Section MoreRounds.
Context {PyObject : Type} {host : Host PyObject}.
Variables (ufunc : PyObject) (method_name : string).
Variables (normal_args : list PyObject).
Variables (normal_kwds : gmap string (PyValue PyObject)).
Variables (with_override_pos : list Z).

Local Abbreviation rounds :=
(Rounds ufunc method_name normal_args normal_kwds with_override_pos).
Local Abbreviation event :=
(event_of ufunc method_name normal_args normal_kwds with_override_pos).

Implicit Types (slots : list (option PyObject)).
Implicit Types (calls : list (CallEvent PyObject)).

(** Every call but the last one declined. *)
Lemma rounds_before_last slots calls x calls' n ev :
rounds slots calls x calls' →
calls' !! n = Some ev → length calls ≤ n → S n < length calls' →
call_of ev = PyOk Py_NotImplemented.
Proof.
intros Hr. revert n.
induction Hr as [slots calls _|slots calls i obj e _ _
                |slots calls i obj f e Hc Hf Hr
                |slots calls i obj f r Hc Hf Hr Hne
                |slots calls i obj f x calls' Hc Hf Hr Hrest IH];
  intros n Hn Hle Hlt; rewrite ?length_app in Hlt; simpl in Hlt; try lia.
destruct (decide (n = length calls)) as [->|Hne].
- rewrite (rounds_lookup_old _ _ _ _ _ _ _ _ _ (length calls) (event i obj f)
             Hrest) in Hn by by apply list_lookup_middle.
  by injection Hn as <-.
- apply (IH n); [done| |done]. rewrite length_app. simpl. lia.
Qed.

(** After the type error of line 159, every call made had declined. *)
Lemma rounds_type_error slots calls x calls' res n ev :
rounds slots calls x calls' → x = Return1 res AllDeclined →
calls' !! n = Some ev → length calls ≤ n →
call_of ev = PyOk Py_NotImplemented.
Proof.
intros Hr. revert n.
induction Hr as [slots calls _|slots calls i obj e _ _
                |slots calls i obj f e Hc Hf Hr
                |slots calls i obj f r Hc Hf Hr Hne
                |slots calls i obj f x calls' Hc Hf Hr Hrest IH];
  intros n Hx Hn Hle; try done.
- apply lookup_lt_Some in Hn. lia.
- destruct (decide (n = length calls)) as [->|Hne].
  + rewrite (rounds_lookup_old _ _ _ _ _ _ _ _ _ (length calls) (event i obj f)
               Hrest) in Hn by by apply list_lookup_middle.
    by injection Hn as <-.
  + apply (IH n); [done..|]. rewrite length_app. simpl. lia.
Qed.

(** An exception that the function lets through was raised by the last call
  made, or by the lookup of the attribute on an operand of a filled slot. *)
Lemma rounds_raised_from slots calls x calls' res exc :
rounds slots calls x calls' → x = Return1 res (Raised exc) →
(∃ ev, last calls' = Some ev ∧ call_of ev = PyNULL exc)
∨ (∃ i obj, slots !! i = Some (Some obj)
     ∧ PyObject_GetAttrString obj "__numpy_ufunc__" = PyNULL exc).
Proof.
induction 1 as [slots calls _|slots calls i obj e Hc Hf
               |slots calls i obj f e Hc Hf Hr
               |slots calls i obj f r Hc Hf Hr Hne
               |slots calls i obj f x calls' Hc Hf Hr Hrest IH];
  intros Hx; try done.
- injection Hx as _ ->. right. exists i, obj.
  by apply choose_override_lookup in Hc.
- injection Hx as _ ->. left. exists (event i obj f). by rewrite last_snoc.
- destruct (IH Hx) as [?|(k & o & [_ Hk]%cleared_filled & ?)]; [by left|].
  right. by exists k, o.
Qed.

(** The value returned is the answer to the last call made. *)
Lemma rounds_result_from slots calls x calls' v :
rounds slots calls x calls' → x = Return0 (Some v) →
v ≠ Py_NotImplemented ∧ ∃ ev, last calls' = Some ev ∧ call_of ev = PyOk v.
Proof.
intros Hr ->. destruct (rounds_exit _ _ _ _ _ _ _ _ _ Hr)
  as (pre & ev & -> & _ & Hcall & Hne).
split; [done|]. exists ev. by rewrite last_snoc.
Qed.
End MoreRounds.

(** X4.  The loop makes at most one call per candidate: the number of calls
    of a run is at most the number of candidates of [args], and so at most
    [NPY_MAXARGS] when a call is made at all. *)
Theorem X4_calls_bounded {PyObject : Type} {host : Host PyObject}
    ufunc method (items : list PyObject) kwds result nin h :
  ∃ r,
    PyUFunc_CheckOverride ufunc method (ArgsTuple items) kwds result nin h = Some r
    ∧ length (out_calls r) ≤ length (filter (λ o, has_override o = true) items)
    ∧ (out_calls r ≠ [] →
       (Z.of_nat (length (out_calls r)) ≤ NPY_MAXARGS)%Z).
Proof.
  destruct (CheckOverride_cases ufunc method (ArgsTuple items) kwds result nin h)
    as (x & calls & Hrun & Hcase).
  exists (Done x calls h). split; [done|]. cbn [out_calls].
  pose proof (length_filter (λ o, has_override o = true) items) as Hfil.
  repeat case_bool_decide;
    try (destruct Hcase as [_ ->]; split; [simpl; lia|done]).
  assert (length calls ≤ length (filter (λ o, has_override o = true) items));
    [|split; [done|intros _; lia]].
  rewrite <-(length_fmap Some (filter _ items)), <-(find_overrides_filled 0 items).
  rewrite find_overrides_length, <-(length_fmap ev_pos calls).
  apply submseteq_length, NoDup_submseteq.
  - eapply rounds_nodup; [|exact Hcase|..].
    + apply NoDup_alt. intros k1 k2 p. apply find_overrides_inj.
    + by rewrite find_overrides_length.
    + apply NoDup_nil_2.
    + intros i obj p _ _. apply not_elem_of_nil.
  - intros p (ev & -> & Hev)%list_elem_of_fmap.
    destruct (discovered_event _ _ _ _ _ _ _ _ Hcase Hev)
      as (n & Hn & Hov & _ & Hargs & _).
    destruct (find_overrides_complete 0 _ _ _ Hn Hov) as (k & _ & Hk).
    unfold ev_pos. rewrite Hargs. simpl.
    apply list_elem_of_lookup. exists k. rewrite Hk. done.
Qed.

(** X5.  The first override that returns something other than
    [Py_NotImplemented] determines the result: in every run, every call but
    the last returned [Py_NotImplemented]; and a value that the function
    returns is what the last call returned, and is not [Py_NotImplemented]. *)
Theorem X5_result_is_first_acceptance {PyObject : Type} {host : Host PyObject}
    ufunc method (args : ArgsObject PyObject) kwds result nin h :
  ∃ r,
    PyUFunc_CheckOverride ufunc method args kwds result nin h = Some r
    ∧ (∀ n ev, out_calls r !! n = Some ev → S n < length (out_calls r) →
         call_of ev = PyOk Py_NotImplemented)
    ∧ (∀ v, out_exit r = Return0 (Some v) →
         v ≠ Py_NotImplemented
         ∧ ∃ ev, last (out_calls r) = Some ev ∧ call_of ev = PyOk v).
Proof.
  destruct (CheckOverride_cases ufunc method args kwds result nin h)
    as (x & calls & Hrun & Hcase).
  exists (Done x calls h). split; [done|]. cbn [out_exit out_calls].
  destruct args as [items|o]; repeat case_bool_decide;
    try (destruct Hcase as [-> ->]; split; [intros n ev Hn; done|done]).
  split.
  - intros n ev Hn Hlt.
    eapply rounds_before_last; eauto. simpl. lia.
  - intros v ->. by eapply rounds_result_from.
Qed.

(** X6.  Where the errors of the loop come from.  After the type error of
    line 159, [*result] is [NULL] and every call made had returned
    [Py_NotImplemented].  An exception that the function lets through, with
    [*result] [NULL], was raised by the last call made or by the lookup of
    [__numpy_ufunc__] on a candidate of [args]. *)
Theorem X6_errors_of_the_loop {PyObject : Type} {host : Host PyObject}
    ufunc method (args : ArgsObject PyObject) kwds result nin h :
  ∃ r,
    PyUFunc_CheckOverride ufunc method args kwds result nin h = Some r
    ∧ (∀ res, out_exit r = Return1 res AllDeclined →
         res = None
         ∧ ∀ ev, ev ∈ out_calls r → call_of ev = PyOk Py_NotImplemented)
    ∧ (∀ res exc, out_exit r = Return1 res (Raised exc) →
         res = None
         ∧ ((∃ ev, last (out_calls r) = Some ev ∧ call_of ev = PyNULL exc)
            ∨ (∃ items obj, args = ArgsTuple items ∧ obj ∈ items
                 ∧ has_override obj = true
                 ∧ PyObject_GetAttrString obj "__numpy_ufunc__" = PyNULL exc))).
Proof.
  destruct (CheckOverride_cases ufunc method args kwds result nin h)
    as (x & calls & Hrun & Hcase).
  exists (Done x calls h). split; [done|]. cbn [out_exit out_calls].
  destruct args as [items|o]; repeat case_bool_decide;
    try (destruct Hcase as [-> ->]; split; intros; done).
  pose proof (rounds_exit _ _ _ _ _ _ _ _ _ Hcase) as Hexit.
  split.
  - intros res ->. split; [done|].
    intros ev (n & Hn)%list_elem_of_lookup.
    eapply rounds_type_error; eauto. simpl. lia.
  - intros res exc ->. split; [done|].
    destruct (rounds_raised_from _ _ _ _ _ _ _ _ _ _ _ Hcase eq_refl)
      as [?|(i & obj & Hi & Hf)]; [by left|right].
    destruct (pos_of_slot (find_overrides 0 items).2 _ _ _
                (eq_sym (find_overrides_length 0 items)) Hi) as [p Hp].
    destruct (find_overrides_pos _ _ _ _ Hp) as (o & Ho & _ & Hit & Hov).
    rewrite Hi in Ho. injection Ho as <-.
    exists items, obj. repeat split; try done.
    by eapply list_elem_of_lookup_2.
Qed.

(** ** The order of the calls, and who is called before the type error *)

Section OrderOfCalls.
Context {PyObject : Type} {host : Host PyObject}.
Implicit Types (obj : PyObject) (rest : list PyObject).
Implicit Types (slots : list (option PyObject)).

Lemma subtype_to_right_unrelated obj rest :
(∀ j b, rest !! j = Some b → ¬ strict_instance b obj) →
subtype_to_right obj (Some <$> rest) = false.
Proof.
intros Hno. apply not_true_is_false.
intros (j & o & Hj & Ho)%subtype_to_right_true.
apply fmap_Some_lookup in Hj as (b & -> & Hb).
apply is_subtype_instance_Some in Ho. by eapply Hno.
Qed.

(** With cleared slots only before it, and no strict instance of its type
  after it, the first filled slot is the choice. *)
Lemma choose_override_first d obj rest :
(∀ j b, rest !! j = Some b → ¬ strict_instance b obj) →
choose_override 0 (replicate d None ++ (Some <$> obj :: rest)) = Some (d, obj).
Proof.
intros Hno. apply (choose_override_intro 0 _ d obj).
- rewrite lookup_app_r by (rewrite length_replicate; lia).
  rewrite length_replicate. by replace (d - d) with 0 by lia.
- replace (drop (S d) (replicate d None ++ (Some <$> obj :: rest)))
    with (Some <$> rest); [by apply subtype_to_right_unrelated|].
  rewrite fmap_cons, cons_middle, app_assoc. symmetry.
  apply drop_app_length'. rewrite length_app, length_replicate. simpl. lia.
- intros m o Hm Ho.
  rewrite lookup_app_l in Ho by (rewrite length_replicate; lia).
  apply lookup_replicate in Ho as [? _]. done.
Qed.

Lemma choose_override_cleared d :
choose_override (PyObject := PyObject) 0 (replicate d None) = None.
Proof.
apply choose_override_None_intro. by intros m o [? _]%lookup_replicate.
Qed.

Lemma subtype_to_right_cleared obj slots :
(∀ t, PyObject_IsInstance None t = 0%Z) →
(∀ m o, slots !! m ≠ Some (Some o)) →
subtype_to_right obj slots = false.
Proof.
intros Hnull Hall. apply not_true_is_false.
intros (j & [o|] & Hj & Ho)%subtype_to_right_true.
- by destruct (Hall j o).
- by rewrite is_subtype_instance_NULL in Ho.
Qed.

(** Where the host answers no for [NULL], a round is without choice only
  when every slot has been cleared. *)
Lemma choose_override_None_cleared i slots :
(∀ t, PyObject_IsInstance None t = 0%Z) →
choose_override i slots = None → ∀ m o, slots !! m ≠ Some (Some o).
Proof.
intros Hnull. revert i.
induction slots as [|[obj|] slots IH]; intros i; simpl; [done| |].
- destruct (subtype_to_right obj slots) eqn:E; [|done].
  intros Hn. rewrite (subtype_to_right_cleared obj slots Hnull (IH _ Hn)) in E.
  done.
- intros Hn [|m] o; simpl; [done|]. by eapply IH.
Qed.

Section Rounds.
Variables (ufunc : PyObject) (method_name : string).
Variables (normal_args : list PyObject).
Variables (normal_kwds : gmap string (PyValue PyObject)).
Variables (with_override_pos : list Z).

Local Abbreviation rounds :=
(Rounds ufunc method_name normal_args normal_kwds with_override_pos).
Local Abbreviation event :=
(event_of ufunc method_name normal_args normal_kwds with_override_pos).

(** Rounds over candidates none of which is a strict instance of the type of
one before it: the calls go down the slots. *)
Lemma rounds_left_to_right slots calls x calls' :
rounds slots calls x calls' →
∀ d rest pos_done pos_rest,
slots = replicate d None ++ (Some <$> rest) →
with_override_pos = pos_done ++ pos_rest →
length pos_done = d → length pos_rest = length rest →
(∀ i j a b, i < j → rest !! i = Some a → rest !! j = Some b →
   ¬ strict_instance b a) →
∃ k, ev_pos <$> calls' = (ev_pos <$> calls) ++ take k pos_rest.
Proof.
assert (∀ d obj rest pos_done p pos_rest f,
        with_override_pos = pos_done ++ p :: pos_rest →
        length pos_done = d → ev_pos (event d obj f) = p) as Hpos.
{ intros d obj rest pos_done p pos_rest f -> <-. apply event_pos.
by apply list_lookup_middle. }
assert (∀ d rest i obj,
        (∀ i j a b, i < j → rest !! i = Some a → rest !! j = Some b →
           ¬ strict_instance b a) →
        choose_override 0 (replicate d None ++ (Some <$> rest))
          = Some (i, obj) →
        i = d ∧ ∃ rest', rest = obj :: rest') as Hfirst.
{ intros d [|a rest] i obj Hno Hc.
- simpl in Hc. rewrite app_nil_r, choose_override_cleared in Hc. done.
- rewrite choose_override_first in Hc.
  + injection Hc as <- <-. eauto.
  + intros j b Hj. apply (Hno 0 (S j)); [lia|done|done]. }
induction 1 as [slots calls _|slots calls i obj e _ _
             |slots calls i obj f e Hc Hf Hr
             |slots calls i obj f r Hc Hf Hr Hne
             |slots calls i obj f x calls' Hc Hf Hr Hrest IH];
intros d rest pos_done pos_rest Hslots Hwo Hd Hlen Hno.
- exists 0. by rewrite take_0, app_nil_r.
- exists 0. by rewrite take_0, app_nil_r.
- subst slots. destruct (Hfirst _ _ _ _ Hno Hc) as (-> & rest' & ->).
destruct pos_rest as [|p pos_rest]; [done|].
exists 1. rewrite fmap_app. simpl. rewrite take_0.
by rewrite (Hpos _ _ rest' _ _ _ _ Hwo Hd).
- subst slots. destruct (Hfirst _ _ _ _ Hno Hc) as (-> & rest' & ->).
destruct pos_rest as [|p pos_rest]; [done|].
exists 1. rewrite fmap_app. simpl. rewrite take_0.
by rewrite (Hpos _ _ rest' _ _ _ _ Hwo Hd).
- subst slots. destruct (Hfirst _ _ _ _ Hno Hc) as (-> & rest' & ->).
destruct pos_rest as [|p pos_rest]; [done|].
destruct (IH (S d) rest' (pos_done ++ [p]) pos_rest) as [k Hk].
+ rewrite fmap_cons.
  replace d with (length (replicate d (@None PyObject)) + 0) at 1
    by (rewrite length_replicate; lia).
  rewrite insert_app_r, replicate_S_end, <-app_assoc. done.
+ by rewrite <-app_assoc.
+ rewrite length_app. simpl. lia.
+ simpl in Hlen. lia.
+ intros i j a b Hij Hi Hj. apply (Hno (S i) (S j)); [lia|done|done].
+ exists (S k). rewrite Hk, fmap_app. simpl.
  rewrite (Hpos _ _ rest' _ _ _ _ Hwo Hd). by rewrite <-app_assoc.
Qed.

(** Where the host answers no for [NULL], the type error of line 159 comes
after the override of every slot has been called. *)
Lemma rounds_everyone_called slots calls x calls' res :
(∀ t, PyObject_IsInstance None t = 0%Z) →
rounds slots calls x calls' → x = Return1 res AllDeclined →
length with_override_pos = length slots →
cleared_were_called with_override_pos slots calls →
∀ k p, with_override_pos !! k = Some p → p ∈ ev_pos <$> calls'.
Proof.
intros Hnull.
induction 1 as [slots calls Hc|slots calls i obj e _ _
             |slots calls i obj f e Hc Hf Hr
             |slots calls i obj f r Hc Hf Hr Hne
             |slots calls i obj f x calls' Hc Hf Hr Hrest IH];
intros Hx Hlen Hcl k p Hp; try done.
- destruct (lookup_lt_is_Some_2 slots k) as [[o|] Ho].
{ apply lookup_lt_Some in Hp. lia. }
+ by destruct (choose_override_None_cleared _ _ Hnull Hc k o).
+ by eapply Hcl.
- apply (IH Hx) with (k := k); [by rewrite length_insert| |done].
intros j q [->|Hj]%cleared_empty Hq; rewrite fmap_app, elem_of_app.
+ right. simpl. rewrite (event_pos _ _ _ _ _ _ _ _ _ Hq). by left.
+ left. by eapply Hcl.
Qed.
End Rounds.
End OrderOfCalls.

(** X7.  Otherwise left to right: when no candidate of [args] is a strict
    instance of the type of a candidate to its left, the overrides are called
    in the order of [args]: the positions of the calls, in the order of the
    calls, are the first positions of the candidates. *)
Theorem X7_left_to_right {PyObject : Type} {host : Host PyObject}
    ufunc method (items : list PyObject) kwds result nin h :
  (∀ i j a b,
     i < j → items !! i = Some a → items !! j = Some b →
     has_override a = true → has_override b = true →
     ¬ strict_instance b a) →
  ∃ r,
    PyUFunc_CheckOverride ufunc method (ArgsTuple items) kwds result nin h = Some r
    ∧ (ev_pos <$> out_calls r) `prefix_of` (find_overrides 0 items).2.
Proof.
  intros Hno.
  destruct (CheckOverride_cases ufunc method (ArgsTuple items) kwds result nin h)
    as (x & calls & Hrun & Hcase).
  exists (Done x calls h). split; [done|]. cbn [out_calls].
  repeat case_bool_decide; try (destruct Hcase as [_ ->]; apply prefix_nil).
  destruct (rounds_left_to_right _ _ _ _ _ _ _ _ _ Hcase 0
              (filter (λ o, has_override o = true) items) []
              (find_overrides 0 items).2) as [k Hk]; try done.
  - by rewrite find_overrides_filled.
  - by rewrite <-find_overrides_length, find_overrides_filled, length_fmap.
  - intros i j a b Hij Hi Hj.
    assert (∀ n o, filter (λ o, has_override o = true) items !! n = Some o →
              ∃ p, (find_overrides 0 items).2 !! n = Some p
                ∧ items !! Z.to_nat p = Some o ∧ (0 ≤ p)%Z
                ∧ has_override o = true) as Hslot.
    { intros n o Hn.
      assert ((find_overrides 0 items).1 !! n = Some (Some o)) as Hw
        by (by rewrite find_overrides_filled, list_lookup_fmap, Hn).
      destruct (pos_of_slot (find_overrides 0 items).2 _ _ _
                  (eq_sym (find_overrides_length 0 items)) Hw) as [p Hp].
      destruct (find_overrides_pos _ _ _ _ Hp) as (o' & Ho' & Hle & Hit & Hov).
      rewrite Hw in Ho'. injection Ho' as <-.
      exists p. replace (p - 0)%Z with p in Hit by lia. done. }
    destruct (Hslot _ _ Hi) as (pa & Hpa & Ha & ? & ?).
    destruct (Hslot _ _ Hj) as (pb & Hpb & Hb & ? & ?).
    pose proof (find_overrides_increasing _ _ _ _ _ _ Hpa Hpb Hij).
    apply (Hno (Z.to_nat pa) (Z.to_nat pb)); (done || lia).
  - rewrite Hk. apply prefix_take.
Qed.

(** In the example host with unrelated classes no operand is a strict
    instance of the type of another. *)
Lemma flat_unrelated behave null (a b : Demo.obj) :
  ¬ strict_instance (host := Demo.host Demo.flat behave null) b a.
Proof.
  unfold strict_instance, Demo.flat. simpl.
  destruct b as [| | | | |c ?| | | |]; try (by intros [_ ?]).
  destruct a as [| | | | |c' ?| | | |]; simpl; case_bool_decide;
    intros [Hty Hinst]; try done; by subst.
Qed.

(** X7, an instance: three candidates of unrelated classes, of which the
    first two decline. *)
Lemma X7_left_to_right_witness :
  ∃ r, Demo.run (Demo.host Demo.flat Demo.mixed 0)
         [Demo.inst 1 0; Demo.inst 1 1; Demo.ndarray 0; Demo.inst 3 2]
         KwNULL 2 ∅ = Some r
    ∧ ev_pos <$> out_calls r = [0%Z; 1%Z; 3%Z].
Proof.
  destruct (X7_left_to_right (host := Demo.host Demo.flat Demo.mixed 0)
              Demo.add "__call__"
              [Demo.inst 1 0; Demo.inst 1 1; Demo.ndarray 0; Demo.inst 3 2]
              KwNULL None 2 ∅)
    as (r & Hrun & _).
  { intros i j a b _ _ _ _ _. apply flat_unrelated. }
  exists r. split; [exact Hrun|].
  vm_compute in Hrun. injection Hrun as <-. reflexivity.
Defined.

(** X8.  Where the host answers no to an instance test on [NULL], nobody is
    passed over: when the function fails with the type error of line 159,
    the override of every candidate of [args] has been called, at the
    position of the candidate, and has returned [Py_NotImplemented]. *)
Theorem X8_type_error_after_every_candidate
    {PyObject : Type} {host : Host PyObject}
    ufunc method (items : list PyObject) kwds result nin h :
  (∀ t, PyObject_IsInstance None t = 0%Z) →
  ∃ r,
    PyUFunc_CheckOverride ufunc method (ArgsTuple items) kwds result nin h = Some r
    ∧ ∀ res, out_exit r = Return1 res AllDeclined →
        ∀ n obj, items !! n = Some obj → has_override obj = true →
          ∃ ev, ev ∈ out_calls r ∧ ev_pos ev = Z.of_nat n ∧ ev_obj ev = obj
            ∧ call_of ev = PyOk Py_NotImplemented.
Proof.
  intros Hnull.
  destruct (CheckOverride_cases ufunc method (ArgsTuple items) kwds result nin h)
    as (x & calls & Hrun & Hcase).
  exists (Done x calls h). split; [done|]. cbn [out_exit out_calls].
  intros res -> n obj Hn Hov.
  case_bool_decide; [by destruct Hcase|].
  destruct (find_overrides_complete 0 _ _ _ Hn Hov) as (k & Hk & Hp).
  case_bool_decide as Hnil; [by rewrite Hnil in Hk|].
  assert (Z.of_nat n ∈ ev_pos <$> calls) as Hin.
  { eapply (rounds_everyone_called _ _ _ _ _ _ _ _ _ _ Hnull Hcase eq_refl).
    - by rewrite find_overrides_length.
    - rewrite find_overrides_filled. apply initial_cleared_were_called.
    - exact Hp. }
  apply list_elem_of_fmap in Hin as (ev & Hpos & Hev).
  exists ev. split; [done|]. split; [done|].
  destruct (discovered_event _ _ _ _ _ _ _ _ Hcase Hev)
    as (n' & Hn' & _ & _ & Hargs & _).
  unfold ev_pos in Hpos. rewrite Hargs in Hpos. simpl in Hpos.
  assert (n' = n) as -> by lia. split; [congruence|].
  apply list_elem_of_lookup in Hev as [m Hm].
  eapply rounds_type_error; eauto. simpl. lia.
Qed.

(** X8, an instance: a superclass instance, an array and a subclass
    instance, which all decline. *)
Lemma X8_type_error_after_every_candidate_witness :
  ∃ r, Demo.run (Demo.host Demo.chain Demo.decline 0)
         [Demo.inst 1 0; Demo.ndarray 0; Demo.inst 2 1] KwNULL 2 ∅ = Some r
    ∧ ev_pos <$> out_calls r = [2%Z; 0%Z].
Proof.
  destruct (X8_type_error_after_every_candidate
              (host := Demo.host Demo.chain Demo.decline 0)
              Demo.add "__call__"
              [Demo.inst 1 0; Demo.ndarray 0; Demo.inst 2 1] KwNULL None 2 ∅)
    as (r & Hrun & _).
  { reflexivity. }
  exists r. split; [exact Hrun|].
  vm_compute in Hrun. injection Hrun as <-. reflexivity.
Defined.

(** X9.  Normalization loses and repeats no operand: when the caller's
    keywords have no out entry, the operands passed positionally followed by
    the operands under out are the operands of [args], in order, whatever
    [nin] is. *)
Theorem X9_normalization_keeps_operands {PyObject : Type}
    (items : list PyObject) kwds nin h :
  kwds_content kwds h !! "out" = None →
  PyTuple_GetSlice items 0 nin
    ++ out_operands (normal_kwds_of items kwds nin h !! "out") = items.
Proof.
  intros Hout. rewrite normal_kwds_of_eq, PyTuple_GetSlice_prefix. cbn zeta.
  case_bool_decide as Hgt.
  - case_bool_decide as Hone.
    + destruct (items !! Z.to_nat (Z.of_nat (length items) - 1)) as [obj|] eqn:E.
      * rewrite lookup_insert_eq. simpl.
        replace (Z.to_nat nin) with (Z.to_nat (Z.of_nat (length items) - 1))
          by lia.
        rewrite <-(take_S_r _ _ _ E). apply take_ge.
        apply lookup_lt_Some in E. lia.
      * rewrite Hout. simpl. rewrite app_nil_r. apply take_ge.
        apply lookup_ge_None in E. lia.
    + rewrite lookup_insert_eq. simpl.
      rewrite PyTuple_GetSlice_suffix by lia. apply take_drop.
  - rewrite Hout. simpl. rewrite app_nil_r. apply take_ge. lia.
Qed.

(** X9, an instance: two inputs and two outputs. *)
Lemma X9_normalization_keeps_operands_witness :
  PyTuple_GetSlice
    [Demo.inst 1 0; Demo.ndarray 1; Demo.ndarray 2; Demo.ndarray 3] 0 2
    ++ out_operands
         (normal_kwds_of
            [Demo.inst 1 0; Demo.ndarray 1; Demo.ndarray 2; Demo.ndarray 3]
            KwNULL 2 ∅ !! "out")
  = [Demo.inst 1 0; Demo.ndarray 1; Demo.ndarray 2; Demo.ndarray 3].
Proof.
  apply (X9_normalization_keeps_operands
           [Demo.inst 1 0; Demo.ndarray 1; Demo.ndarray 2; Demo.ndarray 3]
           KwNULL 2 ∅).
  reflexivity.
Defined.

(** X10.  Without an exact dictionary for [kwds] ([NULL], or an object of
    another type, whose entries are not copied), the keywords of every call
    hold nothing but the out entry, and nothing at all when [args] has no
    more than [nin] operands. *)
Theorem X10_keywords_without_dictionary {PyObject : Type} {host : Host PyObject}
    ufunc method (items : list PyObject) kwds result nin h :
  (∀ d, kwds ≠ KwDict d) →
  ∃ r,
    PyUFunc_CheckOverride ufunc method (ArgsTuple items) kwds result nin h = Some r
    ∧ ∀ ev, ev ∈ out_calls r →
        (∀ key, key ≠ "out" → ev_kwds ev !! key = None)
        ∧ ((Z.of_nat (length items) ≤ nin)%Z → ev_kwds ev = ∅).
Proof.
  intros Hkw.
  destruct (CheckOverride_cases ufunc method (ArgsTuple items) kwds result nin h)
    as (x & calls & Hrun & _).
  eexists. split; [exact Hrun|]. intros ev Hev.
  destruct (CheckOverride_calls _ _ _ _ _ _ _ _ _ Hrun Hev)
    as (_ & _ & _ & _ & _ & ->).
  rewrite normal_kwds_of_eq. cbn zeta.
  assert (kwds_content kwds h = ∅) as ->.
  { destruct kwds as [|d|o]; try done. by destruct (Hkw d). }
  split.
  - intros key Hkey. repeat case_bool_decide; try destruct (items !! _);
      rewrite ?lookup_insert_ne by done; apply lookup_empty.
  - intros Hle. by rewrite bool_decide_eq_false_2 by lia.
Qed.

(** X10, an instance: [kwds] is an object that is not a dictionary. *)
Lemma X10_keywords_without_dictionary_witness :
  ∃ r, Demo.run (Demo.host Demo.chain Demo.accept 0)
         [Demo.inst 1 0; Demo.ndarray 1] (KwOther (Demo.value 5)) 2 ∅ = Some r
    ∧ ∀ ev, ev ∈ out_calls r → ev_kwds ev = ∅.
Proof.
  destruct (X10_keywords_without_dictionary
              (host := Demo.host Demo.chain Demo.accept 0)
              Demo.add "__call__" [Demo.inst 1 0; Demo.ndarray 1]
              (KwOther (Demo.value 5)) None 2 ∅)
    as (r & Hrun & Hkw).
  { discriminate. }
  exists r. split; [exact Hrun|]. intros ev Hev.
  apply (Hkw ev Hev). simpl. lia.
Defined.

(** ** No override, and the type error after everyone declined *)

(** X11.  For a tuple of at most [NPY_MAXARGS] operands, the function
    returns 0 with [*result] [NULL] exactly when no operand is a candidate,
    that is when every operand is an exact array or a scalar or is without
    the attribute; and it has then called nothing. *)
Theorem X11_no_override_iff_no_candidate {PyObject : Type} {host : Host PyObject}
    ufunc method (items : list PyObject) kwds result nin h :
  (Z.of_nat (length items) ≤ NPY_MAXARGS)%Z →
  ∃ r,
    PyUFunc_CheckOverride ufunc method (ArgsTuple items) kwds result nin h = Some r
    ∧ (outcome (out_exit r) = NoOverride ↔
         ∀ obj, obj ∈ items →
           PyArray_CheckExact obj || PyArray_IsAnyScalar obj = true
           ∨ PyObject_HasAttrString obj "__numpy_ufunc__" = false)
    ∧ (outcome (out_exit r) = NoOverride → out_calls r = []).
Proof.
  intros Hlen.
  destruct (CheckOverride_cases ufunc method (ArgsTuple items) kwds result nin h)
    as (x & calls & Hrun & Hcase).
  exists (Done x calls h). split; [done|]. cbn [out_exit out_calls].
  assert ((∀ obj, obj ∈ items →
             PyArray_CheckExact obj || PyArray_IsAnyScalar obj = true
             ∨ PyObject_HasAttrString obj "__numpy_ufunc__" = false)
          ↔ (find_overrides 0 items).1 = []) as ->.
  { rewrite find_overrides_nil. unfold has_override.
    split; intros Hall obj Hin; specialize (Hall obj Hin).
    - destruct Hall as [-> | ->]; [done|apply andb_false_r].
    - destruct (PyArray_CheckExact obj || PyArray_IsAnyScalar obj); [by left|].
      by right. }
  rewrite bool_decide_eq_false_2 in Hcase by lia.
  case_bool_decide as Hnil.
  - destruct Hcase as [-> ->]. split; [by split|done].
  - pose proof (rounds_exit _ _ _ _ _ _ _ _ _ Hcase) as Hexit.
    split; [split; [|done]|]; by destruct x as [[?|]|? ?].
Qed.

(** X11, an instance: an array, a scalar and an object without the
    attribute. *)
Lemma X11_no_override_iff_no_candidate_witness :
  ∃ r, Demo.run (Demo.host Demo.chain Demo.accept 0)
         [Demo.ndarray 0; Demo.scalar 1; Demo.plain 2] KwNULL 2 ∅ = Some r
    ∧ outcome (out_exit r) = NoOverride ∧ out_calls r = [].
Proof.
  destruct (X11_no_override_iff_no_candidate
              (host := Demo.host Demo.chain Demo.accept 0)
              Demo.add "__call__"
              [Demo.ndarray 0; Demo.scalar 1; Demo.plain 2] KwNULL None 2 ∅)
    as (r & Hrun & Hiff & Hcalls).
  { simpl. lia. }
  exists r. split; [exact Hrun|].
  assert (outcome (out_exit r) = NoOverride) as Hno.
  { apply Hiff. intros obj Hin.
    apply elem_of_cons in Hin as [->|Hin]; [left; reflexivity|].
    apply elem_of_cons in Hin as [->|Hin]; [left; reflexivity|].
    apply elem_of_cons in Hin as [->|Hin]; [right; reflexivity|].
    by apply elem_of_nil in Hin. }
  split; [exact Hno|exact (Hcalls Hno)].
Defined.

Section Exhaustion.
Context {PyObject : Type} {host : Host PyObject}.
Variables (ufunc : PyObject) (method_name : string).
Variables (normal_args : list PyObject).
Variables (normal_kwds : gmap string (PyValue PyObject)).
Variables (with_override_pos : list Z).

Local Abbreviation rounds :=
(Rounds ufunc method_name normal_args normal_kwds with_override_pos).
Local Abbreviation event :=
(event_of ufunc method_name normal_args normal_kwds with_override_pos).

(** Rounds over candidates none of which is a strict instance of the type of
  one before it: the type error of line 159 comes after a call at every
  position, in the order of the slots. *)
Lemma rounds_left_to_right_all slots calls x calls' res :
rounds slots calls x calls' → x = Return1 res AllDeclined →
∀ d rest pos_done pos_rest,
  slots = replicate d None ++ (Some <$> rest) →
  with_override_pos = pos_done ++ pos_rest →
  length pos_done = d → length pos_rest = length rest →
  (∀ i j a b, i < j → rest !! i = Some a → rest !! j = Some b →
     ¬ strict_instance b a) →
  ev_pos <$> calls' = (ev_pos <$> calls) ++ pos_rest.
Proof.
induction 1 as [slots calls Hc|slots calls i obj e _ _
               |slots calls i obj f e Hc Hf Hr
               |slots calls i obj f r Hc Hf Hr Hne
               |slots calls i obj f x calls' Hc Hf Hr Hrest IH];
  intros Hx d rest pos_done pos_rest Hslots Hwo Hd Hlen Hno; try done.
- subst slots. destruct rest as [|a rest].
  + destruct pos_rest; [|done]. by rewrite app_nil_r.
  + rewrite choose_override_first in Hc; [done|].
    intros j b Hj. apply (Hno 0 (S j)); [lia|done|done].
- subst slots. destruct rest as [|a rest].
  { simpl in Hc. rewrite app_nil_r, choose_override_cleared in Hc. done. }
  rewrite choose_override_first in Hc
    by (intros j b Hj; apply (Hno 0 (S j)); [lia|done|done]).
  injection Hc as <- <-.
  destruct pos_rest as [|p pos_rest]; [done|].
  rewrite (IH Hx (S d) rest (pos_done ++ [p]) pos_rest).
  + rewrite fmap_app. simpl. rewrite <-app_assoc. simpl. do 2 f_equal.
    apply event_pos. rewrite Hwo. by apply list_lookup_middle.
  + rewrite fmap_cons.
    replace d with (length (replicate d (@None PyObject)) + 0) at 1
      by (rewrite length_replicate; lia).
    rewrite insert_app_r, replicate_S_end, <-app_assoc. done.
  + by rewrite <-app_assoc.
  + rewrite length_app. simpl. lia.
  + simpl in Hlen. lia.
  + intros i j a' b Hij Hi Hj. apply (Hno (S i) (S j)); [lia|done|done].
Qed.
End Exhaustion.

(** X12.  All decline, where no cleared slot is read.  Let [args] be a tuple
    of at most [NPY_MAXARGS] operands in which no candidate is a strict
    instance of the type of a candidate to its left, and let the attribute
    found at line 66 be found again at line 165.  When every call made
    returns [Py_NotImplemented] and there is a candidate, the function fails
    with the type error of line 159, [*result] being [NULL], after having
    called the override of every candidate once, in the order of [args]. *)
Theorem X12_all_declined_in_order {PyObject : Type} {host : Host PyObject}
    ufunc method (items : list PyObject) kwds result nin h :
  (Z.of_nat (length items) ≤ NPY_MAXARGS)%Z →
  (∃ obj, obj ∈ items ∧ has_override obj = true) →
  (∀ i j a b,
     i < j → items !! i = Some a → items !! j = Some b →
     has_override a = true → has_override b = true →
     ¬ strict_instance b a) →
  (∀ obj, obj ∈ items → has_override obj = true →
     ∃ f, PyObject_GetAttrString obj "__numpy_ufunc__" = PyOk f) →
  ∃ r,
    PyUFunc_CheckOverride ufunc method (ArgsTuple items) kwds result nin h = Some r
    ∧ ((∀ ev, ev ∈ out_calls r → call_of ev = PyOk Py_NotImplemented) →
       out_exit r = Return1 None AllDeclined
       ∧ ev_pos <$> out_calls r = (find_overrides 0 items).2).
Proof.
  intros Hlen (c & Hc & Hcov) Hno Hlook.
  destruct (CheckOverride_cases ufunc method (ArgsTuple items) kwds result nin h)
    as (x & calls & Hrun & Hcase).
  exists (Done x calls h). split; [done|]. cbn [out_exit out_calls].
  intros Hdecl.
  rewrite bool_decide_eq_false_2 in Hcase by lia.
  case_bool_decide as Hnil.
  { rewrite find_overrides_nil in Hnil. rewrite (Hnil c Hc) in Hcov. done. }
  assert (∀ n o, (find_overrides 0 items).1 !! n = Some (Some o) →
            ∃ p, (find_overrides 0 items).2 !! n = Some p
              ∧ items !! Z.to_nat p = Some o ∧ (0 ≤ p)%Z
              ∧ has_override o = true) as Hslot.
  { intros n o Hw.
    destruct (pos_of_slot (find_overrides 0 items).2 _ _ _
                (eq_sym (find_overrides_length 0 items)) Hw) as [p Hp].
    destruct (find_overrides_pos _ _ _ _ Hp) as (o' & Ho' & Hle & Hit & Hov).
    rewrite Hw in Ho'. injection Ho' as <-.
    exists p. replace (p - 0)%Z with p in Hit by lia. done. }
  assert (x = Return1 None AllDeclined) as ->.
  { eapply rounds_all_declined; [exact Hcase| |].
    - intros i obj Hi. destruct (Hslot _ _ Hi) as (p & _ & Hit & _ & Hov).
      apply Hlook; [|done]. by eapply list_elem_of_lookup_2.
    - intros n ev Hn _. apply Hdecl. by eapply list_elem_of_lookup_2. }
  split; [done|].
  apply (rounds_left_to_right_all _ _ _ _ _ _ _ _ _ _ Hcase eq_refl 0
           (filter (λ o, has_override o = true) items) []
           (find_overrides 0 items).2); try done.
  - by rewrite find_overrides_filled.
  - by rewrite <-find_overrides_length, find_overrides_filled, length_fmap.
  - intros i j a b Hij Hi Hj.
    assert (∀ n o, filter (λ o, has_override o = true) items !! n = Some o →
              (find_overrides 0 items).1 !! n = Some (Some o)) as Hw.
    { intros n o Hn. by rewrite find_overrides_filled, list_lookup_fmap, Hn. }
    destruct (Hslot _ _ (Hw _ _ Hi)) as (pa & Hpa & Ha & ? & ?).
    destruct (Hslot _ _ (Hw _ _ Hj)) as (pb & Hpb & Hb & ? & ?).
    pose proof (find_overrides_increasing _ _ _ _ _ _ Hpa Hpb Hij).
    apply (Hno (Z.to_nat pa) (Z.to_nat pb)); (done || lia).
Qed.

(** X12, an instance: a subclass instance to the left of a superclass
    instance, with an array between them; both decline. *)
Lemma X12_all_declined_in_order_witness :
  ∃ r, Demo.run (Demo.host Demo.chain Demo.decline 0)
         [Demo.inst 2 0; Demo.ndarray 0; Demo.inst 1 1] KwNULL 2 ∅ = Some r
    ∧ out_exit r = Return1 None AllDeclined
    ∧ ev_pos <$> out_calls r
      = (find_overrides (host := Demo.host Demo.chain Demo.decline 0) 0
           [Demo.inst 2 0; Demo.ndarray 0; Demo.inst 1 1]).2.
Proof.
  destruct (X12_all_declined_in_order
              (host := Demo.host Demo.chain Demo.decline 0)
              Demo.add "__call__"
              [Demo.inst 2 0; Demo.ndarray 0; Demo.inst 1 1] KwNULL None 2 ∅)
    as (r & Hrun & Hall).
  - simpl. lia.
  - exists (Demo.inst 2 0). split; [left|reflexivity].
  - intros i j a b Hij Hi Hj Ha Hb [_ Hinst].
    destruct i as [|[|[|i]]]; simpl in Hi; try discriminate;
      injection Hi as <-; try discriminate;
      destruct j as [|[|[|j]]]; simpl in Hj; try discriminate; try lia;
      injection Hj as <-; try discriminate.
    apply Hinst. reflexivity.
  - intros obj _ Hov. destruct obj; try discriminate Hov. by eexists.
  - exists r. split; [exact Hrun|].
    vm_compute in Hrun. injection Hrun as <-.
    apply Hall. intros ev Hin. simpl in Hin.
    apply elem_of_cons in Hin as [->|Hin]; [reflexivity|].
    apply elem_of_cons in Hin as [->|Hin]; [reflexivity|].
    by apply elem_of_nil in Hin.
Defined.

(** X13.  All decline, where the host answers no to an instance test on
    [NULL].  For a tuple of at most [NPY_MAXARGS] operands with a candidate,
    when the attribute found at line 66 is found again at line 165 and every
    call made returns [Py_NotImplemented], the function fails with the type
    error of line 159 and [*result] is [NULL]: an outcome that is not the
    absence of an override. *)
Theorem X13_all_declined_null_safe {PyObject : Type} {host : Host PyObject}
    ufunc method (items : list PyObject) kwds result nin h :
  (∀ t, PyObject_IsInstance None t = 0%Z) →
  (Z.of_nat (length items) ≤ NPY_MAXARGS)%Z →
  (∃ obj, obj ∈ items ∧ has_override obj = true) →
  (∀ obj, obj ∈ items → has_override obj = true →
     ∃ f, PyObject_GetAttrString obj "__numpy_ufunc__" = PyOk f) →
  ∃ r,
    PyUFunc_CheckOverride ufunc method (ArgsTuple items) kwds result nin h = Some r
    ∧ ((∀ ev, ev ∈ out_calls r → call_of ev = PyOk Py_NotImplemented) →
       out_exit r = Return1 None AllDeclined
       ∧ outcome (out_exit r) = Failure AllDeclined
       ∧ outcome (out_exit r) ≠ NoOverride
       ∧ ∀ n obj, items !! n = Some obj → has_override obj = true →
           Z.of_nat n ∈ ev_pos <$> out_calls r).
Proof.
  intros Hnull Hlen (c & Hc & Hcov) Hlook.
  destruct (CheckOverride_cases ufunc method (ArgsTuple items) kwds result nin h)
    as (x & calls & Hrun & Hcase).
  exists (Done x calls h). split; [done|]. cbn [out_exit out_calls].
  intros Hdecl.
  rewrite bool_decide_eq_false_2 in Hcase by lia.
  case_bool_decide as Hnil.
  { rewrite find_overrides_nil in Hnil. rewrite (Hnil c Hc) in Hcov. done. }
  assert (x = Return1 None AllDeclined) as ->.
  { eapply rounds_all_declined; [exact Hcase| |].
    - intros i obj Hi.
      destruct (pos_of_slot (find_overrides 0 items).2 _ _ _
                  (eq_sym (find_overrides_length 0 items)) Hi) as [p Hp].
      destruct (find_overrides_pos _ _ _ _ Hp) as (o & Ho & _ & Hit & Hov).
      rewrite Hi in Ho. injection Ho as <-.
      apply Hlook; [|done]. by eapply list_elem_of_lookup_2.
    - intros n ev Hn _. apply Hdecl. by eapply list_elem_of_lookup_2. }
  do 3 (split; [done|]).
  intros n obj Hn Hov.
  destruct (find_overrides_complete 0 _ _ _ Hn Hov) as (k & Hk & Hp).
  eapply (rounds_everyone_called _ _ _ _ _ _ _ _ _ _ Hnull Hcase eq_refl).
  - by rewrite find_overrides_length.
  - rewrite find_overrides_filled. apply initial_cleared_were_called.
  - exact Hp.
Qed.

(** X13, an instance: an array, a superclass instance and a subclass
    instance to its right; both decline. *)
Lemma X13_all_declined_null_safe_witness :
  ∃ r, Demo.run (Demo.host Demo.chain Demo.decline 0)
         [Demo.ndarray 0; Demo.inst 1 0; Demo.inst 2 1] KwNULL 2 ∅ = Some r
    ∧ out_exit r = Return1 None AllDeclined.
Proof.
  destruct (X13_all_declined_null_safe
              (host := Demo.host Demo.chain Demo.decline 0)
              Demo.add "__call__"
              [Demo.ndarray 0; Demo.inst 1 0; Demo.inst 2 1] KwNULL None 2 ∅)
    as (r & Hrun & Hall).
  - reflexivity.
  - simpl. lia.
  - exists (Demo.inst 1 0). split; [right; left|reflexivity].
  - intros obj _ Hov. destruct obj; try discriminate Hov. by eexists.
  - exists r. split; [exact Hrun|].
    vm_compute in Hrun. injection Hrun as <-.
    apply Hall. intros ev Hin. simpl in Hin.
    apply elem_of_cons in Hin as [->|Hin]; [reflexivity|].
    apply elem_of_cons in Hin as [->|Hin]; [reflexivity|].
    by apply elem_of_nil in Hin.
Defined.
